(** * XORExtentWriter: the write path of copy-on-write XOR operations

    A shallow embedding of [payload_consumer/xor_extent_writer.cc] and the
    properties of its four methods: [WriteXorCowOp], [WriteXorExtent],
    [WriteExtent] and [WriteReplaceExtents].

    Conventions of the embedding
    - [uint64_t] and [size_t] values are integers of [Z]; every C++ [+], [-]
      and [*] on them is written with the wrap-around at [2^64]
      ([add64], [sub64], [mul64]).
    - A byte is a [Z] below 256, a buffer is a [list Z].  A pointer into the
      caller's buffer is the list of the bytes from the pointer onwards.
    - The methods return [bool] and have effects on three collaborators: the
      source partition (reads), the COW writer (block operations) and the
      error log.  They are functions in a state monad whose state records
      every read requested, every call made to the COW writer and every
      [LOG(ERROR)] statement executed, in program order. *)

From Stdlib Require Import ZArith List Bool Lia.
Import ListNotations.
Local Open Scope Z_scope.

(** ** Machine arithmetic *)

Module U64.

Definition modulus : Z := 2 ^ 64.

Definition wrap (z : Z) : Z := z mod modulus.

Definition add64 (a b : Z) : Z := wrap (a + b).
Definition sub64 (a b : Z) : Z := wrap (a - b).
Definition mul64 (a b : Z) : Z := wrap (a * b).

(** [static_cast<ssize_t>] of a [size_t]. *)
Definition to_ssize (z : Z) : Z :=
  if wrap z <? 2 ^ 63 then wrap z else wrap z - modulus.

Definition in_range (z : Z) : Prop := 0 <= z < modulus.

End U64.
Import U64.

(** ** Data model *)

(** [Extent] of update_metadata.proto: a run of blocks. *)
Record Extent : Type := mkExtent {
  start_block : Z;
  num_blocks : Z
}.

(** [ExtentForRange] is declared in payload_generator/extent_utils.h: it
    builds the extent with the given start block and block count. *)
Definition ExtentForRange (start num : Z) : Extent := mkExtent start num.

(** [CowMergeOperation] of update_metadata.proto.  The two extents are
    optional message fields: [has_src_extent] tells whether the field is set
    and the accessor [src_extent] gives the default (all zero) extent when it
    is not. *)
Record CowMergeOperation : Type := mkMergeOp {
  src_extent_field : option Extent;
  dst_extent_field : option Extent;
  src_offset : Z
}.

Definition default_extent : Extent := mkExtent 0 0.

Definition has_src_extent (m : CowMergeOperation) : bool :=
  match src_extent_field m with Some _ => true | None => false end.
Definition has_dst_extent (m : CowMergeOperation) : bool :=
  match dst_extent_field m with Some _ => true | None => false end.
Definition src_extent (m : CowMergeOperation) : Extent :=
  match src_extent_field m with Some e => e | None => default_extent end.
Definition dst_extent (m : CowMergeOperation) : Extent :=
  match dst_extent_field m with Some e => e | None => default_extent end.

(** Modelled from the spec: [ExtentContains(big, small)] is declared in
    payload_generator/extent_utils.h, which is not part of this file.  The
    spec asks that the sub-extent be "fully contained" in the other extent:
    every block of [small] is a block of [big]. *)
Definition ExtentContains (big small : Extent) : bool :=
  (start_block big <=? start_block small) &&
  (start_block small + num_blocks small <=? start_block big + num_blocks big).

(** ** Buffers *)

Definition bytes := list Z.

(** Pointer arithmetic [p + k] on a pointer into the caller's buffer.  Past
    the end of the buffer nothing is left to read (in C++ the behaviour is
    undefined there). *)
Definition advance (p : bytes) (k : Z) : bytes :=
  if Z.of_nat (length p) <=? k then [] else skipn (Z.to_nat k) p.

(** The [n] bytes a callee reads at pointer [p]. *)
Definition read_at (p : bytes) (n : Z) : bytes :=
  if Z.of_nat (length p) <=? n then p else firstn (Z.to_nat n) p.

(** [std::transform(first1, last1, first2, out, std::bit_xor<unsigned char>{})]:
    the element-wise exclusive-or of the first range with the range that
    starts at [first2].  The second range must be as long as the first one;
    the model stops where the shorter one ends. *)
Fixpoint transform_bit_xor (xs ys : bytes) : bytes :=
  match xs, ys with
  | x :: xs', y :: ys' => Z.lxor x y :: transform_bit_xor xs' ys'
  | _, _ => []
  end.

(** ** Collaborators *)

(** A call made to the COW writer, with its arguments. *)
Inductive CowCall : Type :=
| AddXorBlocks (new_block_start : Z) (data : bytes) (size : Z)
               (old_block : Z) (offset : Z)
| AddRawBlocks (new_block_start : Z) (data : bytes) (size : Z).

(** A read requested from the source partition:
    [PReadAll(source_fd_, buf, count, offset, &bytes_read)]. *)
Record ReadCall : Type := mkRead {
  read_offset : Z;
  read_count : Z
}.

(** The [LOG(ERROR)] statements of the file. *)
Inductive LogError : Type :=
| ShortRead (bytes_read expected src_block sub_offset : Z)
| OverflowedPartition (xor_ext : Extent) (oob_bytes : Z)
| OverflowedSourceOffset (oob_bytes source_offset : Z)
| NotInXorMap (xor_ext extent : Extent)
| NotInsideInstallOp (xor_ext extent : Extent)
| NotInsideXorMap (xor_ext dst : Extent)
| FailedToWriteXorExtent (xor_ext : Extent)
| ReplaceNotInsideInstallOp (ext extent : Extent).

(** [ExtentMap<const CowMergeOperation*>]: the three queries the writer
    makes on [xor_map_]. *)
Record ExtentMap : Type := mkExtentMap {
  GetIntersectingExtents : Extent -> list Extent;
  GetNonIntersectingExtents : Extent -> list Extent;
  Get : Extent -> option CowMergeOperation
}.

(** The members of [XORExtentWriter] that the methods read.
    - [PReadAll count offset] is the source partition: [None] when the read
      fails, [Some data] when it returns; [length data] is [bytes_read].
    - [cow_accepts history call] is the answer of the COW writer to [call]
      after the calls of [history]. *)
Record XORExtentWriter : Type := mkWriter {
  BlockSize : Z;
  partition_size_ : Z;
  PReadAll : Z -> Z -> option bytes;
  cow_accepts : list CowCall -> CowCall -> bool;
  xor_map_ : ExtentMap
}.

(** ** The monad of the write path *)

Record World : Type := mkWorld {
  cow_calls : list CowCall;
  reads : list ReadCall;
  errors : list LogError
}.

Definition initial : World := mkWorld [] [] [].

Definition M (A : Type) : Type := World -> A * World.

Definition ret {A} (a : A) : M A := fun w => (a, w).

Definition bind {A B} (m : M A) (k : A -> M B) : M B :=
  fun w => let (a, w') := m w in k a w'.

Notation "x <- m ;; k" := (bind m (fun x => k))
  (at level 61, m at next level, right associativity).
Notation "m ;; k" := (bind m (fun _ => k))
  (at level 61, right associativity).

(** [TEST_AND_RETURN_FALSE(m); k]: leave with [false] when [m] is false.
    The macro is defined in common/utils.h. *)
Definition test_and_return_false (m : M bool) (k : M bool) : M bool :=
  b <- m ;; if b then k else ret false.

Notation "'TEST_AND_RETURN_FALSE' m ;;; k" := (test_and_return_false m k)
  (at level 61, m at next level, right associativity).

Definition log_error (e : LogError) : M unit :=
  fun w => (tt, mkWorld (cow_calls w) (reads w) (errors w ++ [e])).

Definition pread (W : XORExtentWriter) (count offset : Z) : M (option bytes) :=
  fun w => (PReadAll W count offset,
            mkWorld (cow_calls w) (reads w ++ [mkRead offset count]) (errors w)).

Definition cow_call (W : XORExtentWriter) (c : CowCall) : M bool :=
  fun w => (cow_accepts W (cow_calls w) c,
            mkWorld (cow_calls w ++ [c]) (reads w) (errors w)).

(** ** The methods *)

Definition WriteXorCowOp (W : XORExtentWriter) (buf : bytes) (size : Z)
    (xor_ext : Extent) (src_offset : Z) : M bool :=
  let count := mul64 (BlockSize W) (num_blocks xor_ext) in
  let src_block := src_offset / BlockSize W in
  r <- pread W count src_offset ;;
  match r with
  | None => ret false
  | Some xor_block_data =>
      if negb (Z.of_nat (length xor_block_data) =? to_ssize count) then
        log_error (ShortRead (Z.of_nat (length xor_block_data)) count
                             src_block (src_offset mod BlockSize W)) ;;
        ret false
      else
        TEST_AND_RETURN_FALSE
          cow_call W (AddXorBlocks (start_block xor_ext)
                        (transform_bit_xor xor_block_data buf)
                        count src_block (src_offset mod BlockSize W)) ;;;
        ret true
  end.

(** The local variables of [WriteXorExtent]. *)
Definition src_block_of (xor_ext : Extent) (merge_op : CowMergeOperation) : Z :=
  sub64 (add64 (start_block (src_extent merge_op)) (start_block xor_ext))
        (start_block (dst_extent merge_op)).

Definition read_end_offset (W : XORExtentWriter) (xor_ext : Extent)
    (merge_op : CowMergeOperation) : Z :=
  add64 (mul64 (add64 (src_block_of xor_ext merge_op) (num_blocks xor_ext))
               (BlockSize W))
        (src_offset merge_op).

Definition is_out_of_bound_read (W : XORExtentWriter) (xor_ext : Extent)
    (merge_op : CowMergeOperation) : bool :=
  (read_end_offset W xor_ext merge_op >? partition_size_ W) &&
  negb (partition_size_ W =? 0).

Definition oob_bytes (W : XORExtentWriter) (xor_ext : Extent)
    (merge_op : CowMergeOperation) : Z :=
  if is_out_of_bound_read W xor_ext merge_op
  then sub64 (read_end_offset W xor_ext merge_op) (partition_size_ W)
  else 0.

(** The source offset of the whole sub-extent, and of its last block in the
    out-of-bound branch. *)
Definition whole_src_offset (W : XORExtentWriter) (xor_ext : Extent)
    (merge_op : CowMergeOperation) : Z :=
  add64 (mul64 (src_block_of xor_ext merge_op) (BlockSize W))
        (src_offset merge_op).

Definition last_block_src_offset (W : XORExtentWriter) (xor_ext : Extent)
    (merge_op : CowMergeOperation) : Z :=
  mul64 (sub64 (add64 (src_block_of xor_ext merge_op) (num_blocks xor_ext)) 1)
        (BlockSize W).

(** The two extents of the out-of-bound branch. *)
Definition non_oob_extent (xor_ext : Extent) : Extent :=
  ExtentForRange (start_block xor_ext) (sub64 (num_blocks xor_ext) 1).

Definition last_block (xor_ext : Extent) : Extent :=
  ExtentForRange
    (sub64 (add64 (start_block xor_ext) (num_blocks xor_ext)) 1) 1.

(** Lines 87-93: the blocks before the last one, when there are any. *)
Definition write_non_oob (W : XORExtentWriter) (buf : bytes)
    (xor_ext : Extent) (merge_op : CowMergeOperation) : M bool :=
  if num_blocks (non_oob_extent xor_ext) >? 0 then
    WriteXorCowOp W buf
      (mul64 (BlockSize W) (num_blocks (non_oob_extent xor_ext)))
      (non_oob_extent xor_ext)
      (whole_src_offset W xor_ext merge_op)
  else ret true.

(** Lines 94-100: the last block alone. *)
Definition write_last_block (W : XORExtentWriter) (buf : bytes)
    (xor_ext : Extent) (merge_op : CowMergeOperation) : M bool :=
  WriteXorCowOp W
    (advance buf (mul64 (sub64 (num_blocks xor_ext) 1) (BlockSize W)))
    (BlockSize W)
    (last_block xor_ext)
    (last_block_src_offset W xor_ext merge_op).

(** Lines 85-101: the two writes of the out-of-bound branch. *)
Definition write_split (W : XORExtentWriter) (buf : bytes)
    (xor_ext : Extent) (merge_op : CowMergeOperation) : M bool :=
  TEST_AND_RETURN_FALSE write_non_oob W buf xor_ext merge_op ;;;
  TEST_AND_RETURN_FALSE write_last_block W buf xor_ext merge_op ;;;
  ret true.

Definition WriteXorExtent (W : XORExtentWriter) (buf : bytes) (size : Z)
    (xor_ext : Extent) (merge_op : CowMergeOperation) : M bool :=
  if is_out_of_bound_read W xor_ext merge_op then
    if oob_bytes W xor_ext merge_op >=? BlockSize W then
      log_error (OverflowedPartition xor_ext (oob_bytes W xor_ext merge_op)) ;;
      ret false
    else
      (if oob_bytes W xor_ext merge_op >? src_offset merge_op
       then log_error (OverflowedSourceOffset (oob_bytes W xor_ext merge_op)
                                              (src_offset merge_op))
       else ret tt) ;;
      write_split W buf xor_ext merge_op
  else
    TEST_AND_RETURN_FALSE
      WriteXorCowOp W buf size xor_ext (whole_src_offset W xor_ext merge_op) ;;;
    ret true.

Fixpoint WriteReplaceExtents (W : XORExtentWriter) (replace_extents : list Extent)
    (extent : Extent) (buf : bytes) (size : Z) : M bool :=
  let new_block_start := start_block extent in
  match replace_extents with
  | [] => ret true
  | ext :: rest =>
      if add64 (start_block ext) (num_blocks ext) >?
         add64 (start_block extent) (num_blocks extent) then
        log_error (ReplaceNotInsideInstallOp ext extent) ;;
        ret false
      else
        let i := sub64 (start_block ext) new_block_start in
        let dst_block_data := advance buf (mul64 i (BlockSize W)) in
        let len := mul64 (num_blocks ext) (BlockSize W) in
        TEST_AND_RETURN_FALSE
          cow_call W (AddRawBlocks (start_block ext)
                        (read_at dst_block_data len) len) ;;;
        WriteReplaceExtents W rest extent buf size
  end.

(** The body of the [for] loop of [WriteExtent] for one XOR extent: [true]
    when the loop goes on to the next extent, [false] when the method
    returns false. *)
Definition WriteExtent_step (W : XORExtentWriter) (buf : bytes)
    (extent xor_ext : Extent) : M bool :=
  match Get (xor_map_ W) xor_ext with
  | None => log_error (NotInXorMap xor_ext extent) ;; ret false
  | Some merge_op =>
      TEST_AND_RETURN_FALSE ret (has_src_extent merge_op) ;;;
      TEST_AND_RETURN_FALSE ret (has_dst_extent merge_op) ;;;
      if negb (ExtentContains extent xor_ext) then
        log_error (NotInsideInstallOp xor_ext extent) ;; ret false
      else if negb (ExtentContains (dst_extent merge_op) xor_ext) then
        log_error (NotInsideXorMap xor_ext (dst_extent merge_op)) ;; ret false
      else
        let i := sub64 (start_block xor_ext) (start_block extent) in
        let dst_block_data := advance buf (mul64 i (BlockSize W)) in
        ok <- WriteXorExtent W dst_block_data
                (mul64 (num_blocks xor_ext) (BlockSize W)) xor_ext merge_op ;;
        if negb ok then
          log_error (FailedToWriteXorExtent xor_ext) ;; ret false
        else ret true
  end.

Fixpoint WriteExtent_loop (W : XORExtentWriter) (buf : bytes) (extent : Extent)
    (xor_extents : list Extent) : M bool :=
  match xor_extents with
  | [] => ret true
  | xor_ext :: rest =>
      TEST_AND_RETURN_FALSE WriteExtent_step W buf extent xor_ext ;;;
      WriteExtent_loop W buf extent rest
  end.

Definition WriteExtent (W : XORExtentWriter) (buf : bytes) (extent : Extent)
    (size : Z) : M bool :=
  let xor_extents := GetIntersectingExtents (xor_map_ W) extent in
  TEST_AND_RETURN_FALSE WriteExtent_loop W buf extent xor_extents ;;;
  let replace_extents := GetNonIntersectingExtents (xor_map_ W) extent in
  WriteReplaceExtents W replace_extents extent buf size.

(** ** Vocabulary of the properties *)

(** The call [WriteXorCowOp] makes to the COW writer once the source bytes
    [src] are read. *)
Definition xor_call (W : XORExtentWriter) (buf : bytes) (xor_ext : Extent)
    (src_offset : Z) (src : bytes) : CowCall :=
  AddXorBlocks (start_block xor_ext) (transform_bit_xor src buf)
    (mul64 (BlockSize W) (num_blocks xor_ext))
    (src_offset / BlockSize W) (src_offset mod BlockSize W).

(** The call [WriteReplaceExtents] makes to the COW writer for the replace
    extent [ext] of the request [extent]: the bytes at the block offset of
    [ext] in the request, as they are. *)
Definition raw_call (W : XORExtentWriter) (buf : bytes) (extent ext : Extent)
    : CowCall :=
  let i := sub64 (start_block ext) (start_block extent) in
  let len := mul64 (num_blocks ext) (BlockSize W) in
  AddRawBlocks (start_block ext)
    (read_at (advance buf (mul64 i (BlockSize W))) len) len.

(** The sub-extent [xor_ext] of the request is one that [WriteExtent]
    refuses: the map holds no operation for it, or the operation lacks an
    extent, or the sub-extent is not inside the request extent or not inside
    the destination extent of the operation. *)
Definition invalid_xor_extent (W : XORExtentWriter) (extent xor_ext : Extent)
    : Prop :=
  Get (xor_map_ W) xor_ext = None \/
  exists merge_op,
    Get (xor_map_ W) xor_ext = Some merge_op /\
    (has_src_extent merge_op = false \/
     has_dst_extent merge_op = false \/
     ExtentContains extent xor_ext = false \/
     ExtentContains (dst_extent merge_op) xor_ext = false).

(** The byte offsets of the source range of [xor_ext] are computed without
    wrap-around: the block size is positive, the sub-extent has a block, and
    the end of the implied read fits in 64 bits. *)
Definition source_range_fits (W : XORExtentWriter) (xor_ext : Extent)
    (merge_op : CowMergeOperation) : Prop :=
  0 < BlockSize W /\
  0 <= partition_size_ W /\
  0 <= src_offset merge_op /\
  1 <= num_blocks xor_ext /\
  (src_block_of xor_ext merge_op + num_blocks xor_ext) * BlockSize W +
    src_offset merge_op < modulus.

(** The block size divides [2^64], as every power of two up to [2^64]
    does, or the byte offset of the last block of [xor_ext] is computed
    without wrap-around. *)
Definition last_block_offset_exact (W : XORExtentWriter) (xor_ext : Extent)
    (merge_op : CowMergeOperation) : Prop :=
  (BlockSize W | modulus) \/
  sub64 (add64 (src_block_of xor_ext merge_op) (num_blocks xor_ext)) 1 *
    BlockSize W < modulus.

(** Two worlds with the same reads and the same calls to the COW writer:
    they differ in the error log at most. *)
Definition same_io (w1 w2 : World) : Prop :=
  cow_calls w1 = cow_calls w2 /\ reads w1 = reads w2.

(** A computation whose result, reads and calls do not depend on the error
    log. *)
Definition log_independent {A} (m : M A) : Prop :=
  forall w1 w2, same_io w1 w2 ->
    fst (m w1) = fst (m w2) /\ same_io (snd (m w1)) (snd (m w2)).

(** The two kinds of calls to the COW writer. *)
Definition is_xor_call (c : CowCall) : bool :=
  match c with AddXorBlocks _ _ _ _ _ => true | AddRawBlocks _ _ _ => false end.

Definition is_raw_call (c : CowCall) : bool :=
  match c with AddXorBlocks _ _ _ _ _ => false | AddRawBlocks _ _ _ => true end.

(** A byte value. *)
Definition is_byte (b : Z) : Prop := 0 <= b < 256.

(** [extend w d] is the world [w] after the calls, the reads and the log
    entries of [d] are added to it. *)
Definition extend (w d : World) : World :=
  mkWorld (cow_calls w ++ cow_calls d) (reads w ++ reads d)
          (errors w ++ errors d).

(** A computation that has the same result and adds the same calls, reads
    and log entries in every world. *)
Definition uniform {A} (m : M A) : Prop :=
  forall w1 w2, exists a d,
    m w1 = (a, extend w1 d) /\ m w2 = (a, extend w2 d).

(** A COW writer whose answer to a call does not depend on the calls made
    before. *)
Definition history_independent (W : XORExtentWriter) : Prop :=
  forall h1 h2 c, cow_accepts W h1 c = cow_accepts W h2 c.

(** ** Concrete writers, used to run the methods *)

Module Demo.

(** A source partition that holds the bytes of [img]: [PReadAll] reads
    until [count] bytes are read or the end of the image is reached. *)
Definition image_reader (img : bytes) (count offset : Z) : option bytes :=
  Some (read_at (advance img offset) count).

Definition accept_all (_ : list CowCall) (_ : CowCall) : bool := true.

Definition merge_op : CowMergeOperation :=
  mkMergeOp (Some (mkExtent 0 2)) (Some (mkExtent 100 2)) 0.

Definition xor_map : ExtentMap :=
  mkExtentMap
    (fun e => [mkExtent 100 2])
    (fun e => [])
    (fun e => if (start_block e =? 100) && (num_blocks e =? 2)
              then Some merge_op else None).

(** Blocks of 4096 bytes; the source device holds two full blocks of the
    byte 0x5a, and the partition size recorded for it is 100 bytes short of
    the second block's end. *)
Definition device : bytes := repeat 90 (Z.to_nat 8192).

Definition writer : XORExtentWriter :=
  mkWriter 4096 8092 (image_reader device) accept_all xor_map.

(** The same device with an unknown partition size. *)
Definition unbounded_writer : XORExtentWriter :=
  mkWriter 4096 0 (image_reader device) accept_all xor_map.

(** A device that ends where the recorded partition size says. *)
Definition short_writer : XORExtentWriter :=
  mkWriter 4096 8092 (image_reader (repeat 90 (Z.to_nat 8092))) accept_all xor_map.

(** A partition of a single block: a two-block read overruns it by a block. *)
Definition one_block_writer : XORExtentWriter :=
  mkWriter 4096 4096 (image_reader device) accept_all xor_map.

(** A merge operation with a sub-block shift of 200 bytes, on a device whose
    recorded size leaves room for the shift but not for the whole block. *)
Definition shifted_op : CowMergeOperation :=
  mkMergeOp (Some (mkExtent 0 2)) (Some (mkExtent 100 2)) 200.

Definition shifted_writer : XORExtentWriter :=
  mkWriter 4096 8292 (image_reader (repeat 90 (Z.to_nat 8292))) accept_all xor_map.

Definition xor_ext : Extent := mkExtent 100 2.
Definition install_extent : Extent := mkExtent 100 2.

(** New content for two blocks. *)
Definition new_data : bytes := repeat 60 (Z.to_nat 4096) ++ repeat 195 (Z.to_nat 4096).

(** An XOR map that returns an extent for which it holds no operation. *)
Definition stale_map : ExtentMap :=
  mkExtentMap
    (fun e => [mkExtent 100 1; mkExtent 101 1])
    (fun e => [])
    (fun e => if start_block e =? 100
              then Some (mkMergeOp (Some (mkExtent 0 1)) (Some (mkExtent 100 1)) 0)
              else None).

Definition stale_writer : XORExtentWriter :=
  mkWriter 4096 0 (image_reader device) accept_all stale_map.

(** A request of five blocks from block 10, and a replace extent that starts
    two blocks before it. *)
Definition request : Extent := mkExtent 10 5.
Definition request_data : bytes := repeat 7 (Z.to_nat 20480).
Definition early_extent : Extent := mkExtent 8 3.

(** A map without XOR operations: the whole request is one replace extent. *)
Definition replace_map : ExtentMap :=
  mkExtentMap (fun e => []) (fun e => [e]) (fun e => None).

Definition replace_writer : XORExtentWriter :=
  mkWriter 4096 0 (image_reader device) accept_all replace_map.

(** Blocks of [2^62] bytes: two of them are [2^63] bytes. *)
Definition huge_block_writer : XORExtentWriter :=
  mkWriter (2 ^ 62) 0 (image_reader device) accept_all xor_map.

(** A partition that ends 96 bytes before the end of its first block. *)
Definition tiny_writer : XORExtentWriter :=
  mkWriter 4096 4000 (image_reader device) accept_all xor_map.

Definition one_block : Extent := mkExtent 100 1.

End Demo.

(** * Properties *)

(** ** Arithmetic modulo [2^64] *)

Lemma modulus_eq : modulus = 18446744073709551616.
Proof. reflexivity. Qed.

Lemma wrap_range (z : Z) : 0 <= wrap z < modulus.
Proof. unfold wrap. apply Z.mod_pos_bound. rewrite modulus_eq. lia. Qed.

Lemma wrap_small (z : Z) : 0 <= z < modulus -> wrap z = z.
Proof. intros H. unfold wrap. now apply Z.mod_small. Qed.

Lemma wrap_idem (z : Z) : wrap (wrap z) = wrap z.
Proof. apply wrap_small, wrap_range. Qed.

Lemma to_ssize_of_length (n : nat) (z : Z) :
  Z.of_nat n = to_ssize (wrap z) -> Z.of_nat n = wrap z.
Proof.
  unfold to_ssize. rewrite wrap_idem.
  pose proof (wrap_range z) as R. rewrite modulus_eq in *.
  destruct (wrap z <? 2 ^ 63) eqn:E; [tauto|].
  apply Z.ltb_ge in E. change (2 ^ 63) with 9223372036854775808 in E. lia.
Qed.

(** The source block is the re-based position of the sub-extent. *)
Lemma src_block_of_wrap (x : Extent) (m : CowMergeOperation) :
  src_block_of x m =
  wrap (start_block (src_extent m) +
        (start_block x - start_block (dst_extent m))).
Proof.
  unfold src_block_of, sub64, add64, wrap.
  rewrite Zminus_mod_idemp_l. f_equal. lia.
Qed.

(** ** The monad *)

Lemma test_ret_true (m : M bool) (w : World) :
  (TEST_AND_RETURN_FALSE m ;;; ret true) w = m w.
Proof.
  unfold test_and_return_false, bind, ret.
  destruct (m w) as [[|] w']; reflexivity.
Qed.

(** ** Buffers and exclusive-or *)

Lemma transform_bit_xor_length (xs ys : bytes) :
  (length xs <= length ys)%nat ->
  length (transform_bit_xor xs ys) = length xs.
Proof.
  revert ys. induction xs as [|x xs IH]; intros [|y ys] H; simpl in *;
    try reflexivity; try lia.
  f_equal. apply IH. lia.
Qed.

Lemma transform_bit_xor_cancel (xs ys : bytes) :
  (length xs <= length ys)%nat ->
  transform_bit_xor (transform_bit_xor xs ys) xs = firstn (length xs) ys.
Proof.
  revert ys. induction xs as [|x xs IH]; intros [|y ys] H; simpl in *;
    try reflexivity; try lia.
  f_equal.
  - rewrite Z.lxor_comm, <- Z.lxor_assoc, Z.lxor_nilpotent. apply Z.lxor_0_l.
  - apply IH. lia.
Qed.

Lemma read_at_firstn (p : bytes) (n : nat) :
  read_at p (Z.of_nat n) = firstn n p.
Proof.
  unfold read_at. rewrite Nat2Z.id.
  destruct (Z.of_nat (length p) <=? Z.of_nat n) eqn:E.
  - apply Z.leb_le in E. symmetry. apply firstn_all2. lia.
  - reflexivity.
Qed.

(** ** [WriteXorCowOp] *)

(** Every run of [WriteXorCowOp] requests one read; then either it fails
    without a call to the COW writer, or the read was complete and it makes
    exactly one [AddXorBlocks] call, whose answer is the result. *)
Lemma WriteXorCowOp_outcome (W : XORExtentWriter) (buf : bytes) (size : Z)
    (x : Extent) (off : Z) (w : World) :
  let count := mul64 (BlockSize W) (num_blocks x) in
  let r := WriteXorCowOp W buf size x off w in
  reads (snd r) = reads w ++ [mkRead off count] /\
  ((fst r = false /\ cow_calls (snd r) = cow_calls w)
   \/
   (exists src,
      PReadAll W count off = Some src /\
      Z.of_nat (length src) = count /\
      fst r = cow_accepts W (cow_calls w) (xor_call W buf x off src) /\
      cow_calls (snd r) = cow_calls w ++ [xor_call W buf x off src] /\
      errors (snd r) = errors w)).
Proof.
  intros count r. subst r count. unfold WriteXorCowOp, xor_call.
  unfold test_and_return_false, bind, pread, cow_call, log_error, ret.
  destruct (PReadAll W _ off) as [data|] eqn:HR.
  - destruct (Z.of_nat (length data) =? _) eqn:HL;
      cbn [negb fst snd cow_calls reads errors].
    + apply Z.eqb_eq in HL. apply to_ssize_of_length in HL.
      destruct (cow_accepts W (cow_calls w) _) eqn:HA;
        cbn [fst snd cow_calls reads errors];
        (split; [reflexivity|]); right; exists data;
        repeat split; solve [exact HL | symmetry; exact HA].
    + split; [reflexivity|]. left. auto.
  - cbn [fst snd cow_calls reads errors]. split; [reflexivity|]. left. auto.
Qed.

(** C2.  When [WriteXorCowOp] succeeds, the source bytes [src] it read at
    [src_offset] are exactly [num_blocks * block_size] bytes, the one call it
    makes to the COW writer is [AddXorBlocks] with the byte-wise exclusive-or
    of [src] and the new content as data, and, the new content being at
    least as long, the exclusive-or of that data with [src] gives the new
    content back. *)
Theorem WriteXorCowOp_xor_roundtrip (W : XORExtentWriter) (buf : bytes)
    (size : Z) (x : Extent) (off : Z) (w w' : World) :
  WriteXorCowOp W buf size x off w = (true, w') ->
  let count := mul64 (BlockSize W) (num_blocks x) in
  exists src delta,
    PReadAll W count off = Some src /\
    Z.of_nat (length src) = count /\
    delta = transform_bit_xor src buf /\
    cow_calls w' =
      cow_calls w ++
      [AddXorBlocks (start_block x) delta count
                    (off / BlockSize W) (off mod BlockSize W)] /\
    (count <= Z.of_nat (length buf) ->
     length delta = length src /\
     transform_bit_xor delta src = read_at buf count).
Proof.
  intros H count.
  destruct (WriteXorCowOp_outcome W buf size x off w) as [_ [[F _]|[src S]]].
  - rewrite H in F. discriminate.
  - destruct S as (HR & HL & _ & HC & _). rewrite H in HC. simpl in HC.
    exists src, (transform_bit_xor src buf).
    repeat split; try assumption.
    + apply transform_bit_xor_length. fold count in HL. lia.
    + fold count in HL. rewrite <- HL, read_at_firstn.
      apply transform_bit_xor_cancel. lia.
Qed.

(** C8.  When the source read fails, or returns fewer bytes than the
    [num_blocks * block_size] requested (indeed any other number of bytes),
    [WriteXorCowOp] returns false and makes no call to the COW writer. *)
Theorem WriteXorCowOp_read_failure (W : XORExtentWriter) (buf : bytes)
    (size : Z) (x : Extent) (off : Z) (w : World) :
  let count := mul64 (BlockSize W) (num_blocks x) in
  (PReadAll W count off = None \/
   exists data, PReadAll W count off = Some data /\
                Z.of_nat (length data) <> count) ->
  fst (WriteXorCowOp W buf size x off w) = false /\
  cow_calls (snd (WriteXorCowOp W buf size x off w)) = cow_calls w.
Proof.
  intros count H.
  destruct (WriteXorCowOp_outcome W buf size x off w) as [_ [F|[src S]]].
  - exact F.
  - exfalso. destruct S as (HR & HL & _). fold count in HR, HL.
    destruct H as [H|[data [H N]]]; rewrite H in HR; [discriminate|].
    injection HR as ->. contradiction.
Qed.

(** ** [WriteXorExtent] *)

Lemma is_out_of_bound_read_spec (W : XORExtentWriter) (x : Extent)
    (m : CowMergeOperation) :
  is_out_of_bound_read W x m = true <->
  read_end_offset W x m > partition_size_ W /\ partition_size_ W <> 0.
Proof.
  unfold is_out_of_bound_read.
  rewrite andb_true_iff, negb_true_iff, Z.eqb_neq, Z.gtb_gt. reflexivity.
Qed.

(** Without an overrun the whole sub-extent goes to [WriteXorCowOp]. *)
Lemma WriteXorExtent_in_bounds (W : XORExtentWriter) (buf : bytes) (size : Z)
    (x : Extent) (m : CowMergeOperation) (w : World) :
  is_out_of_bound_read W x m = false ->
  WriteXorExtent W buf size x m w =
  WriteXorCowOp W buf size x (whole_src_offset W x m) w.
Proof.
  intros H. unfold WriteXorExtent. rewrite H. apply test_ret_true.
Qed.

(** With an overrun of less than a block the sub-extent is split. *)
Lemma WriteXorExtent_oob_branch (W : XORExtentWriter) (buf : bytes) (size : Z)
    (x : Extent) (m : CowMergeOperation) (w : World) :
  is_out_of_bound_read W x m = true ->
  oob_bytes W x m < BlockSize W ->
  WriteXorExtent W buf size x m w =
  ((if oob_bytes W x m >? src_offset m
    then log_error (OverflowedSourceOffset (oob_bytes W x m) (src_offset m))
    else ret tt) ;;
   write_split W buf x m) w.
Proof.
  intros H L. unfold WriteXorExtent. rewrite H.
  destruct (oob_bytes W x m >=? BlockSize W) eqn:E; [|reflexivity].
  apply Z.geb_le in E. lia.
Qed.

(** C4.  When the read of a sub-extent overruns a known (non-zero)
    partition size by a block or more, [WriteXorExtent] returns false
    without a call to the COW writer, and without a read of the source. *)
Theorem WriteXorExtent_rejects_block_overrun (W : XORExtentWriter)
    (buf : bytes) (size : Z) (x : Extent) (m : CowMergeOperation) (w : World) :
  partition_size_ W <> 0 ->
  read_end_offset W x m > partition_size_ W ->
  oob_bytes W x m >= BlockSize W ->
  fst (WriteXorExtent W buf size x m w) = false /\
  cow_calls (snd (WriteXorExtent W buf size x m w)) = cow_calls w /\
  reads (snd (WriteXorExtent W buf size x m w)) = reads w.
Proof.
  intros HP HE HB.
  assert (H : is_out_of_bound_read W x m = true)
    by (apply is_out_of_bound_read_spec; auto).
  unfold WriteXorExtent. rewrite H.
  destruct (oob_bytes W x m >=? BlockSize W) eqn:E.
  - repeat split.
  - rewrite Z.geb_leb in E. apply Z.leb_gt in E. lia.
Qed.

(** C7.  The source block of a sub-extent is the start of the source extent
    plus the position of the sub-extent in the destination extent, as a
    64-bit value, and exactly so for a sub-extent that starts inside the
    destination extent when the sum fits in 64 bits.  Without an overrun the
    whole sub-extent goes to [WriteXorCowOp] at the byte offset
    [src_block * block_size + src_offset]. *)
Theorem WriteXorExtent_source_block (W : XORExtentWriter) (buf : bytes)
    (size : Z) (x : Extent) (m : CowMergeOperation) (w : World) :
  let rebased :=
    start_block (src_extent m) + (start_block x - start_block (dst_extent m)) in
  src_block_of x m = wrap rebased /\
  (start_block (dst_extent m) <= start_block x ->
   0 <= start_block (src_extent m) ->
   rebased < modulus ->
   src_block_of x m = rebased) /\
  (is_out_of_bound_read W x m = false ->
   WriteXorExtent W buf size x m w =
   WriteXorCowOp W buf size x
     (add64 (mul64 (src_block_of x m) (BlockSize W)) (src_offset m)) w).
Proof.
  intros rebased. split; [apply src_block_of_wrap|]. split.
  - intros H1 H2 H3. rewrite src_block_of_wrap. apply wrap_small.
    fold rebased. unfold rebased in *. lia.
  - apply WriteXorExtent_in_bounds.
Qed.

(** C9.  With a partition size of 0 no sub-extent is out of bound, whatever
    the end offset of its read: the whole sub-extent goes to [WriteXorCowOp]
    at [src_block * block_size + src_offset]. *)
Theorem WriteXorExtent_unknown_partition_size (W : XORExtentWriter)
    (buf : bytes) (size : Z) (x : Extent) (m : CowMergeOperation) (w : World) :
  partition_size_ W = 0 ->
  is_out_of_bound_read W x m = false /\
  oob_bytes W x m = 0 /\
  WriteXorExtent W buf size x m w =
  WriteXorCowOp W buf size x
    (add64 (mul64 (src_block_of x m) (BlockSize W)) (src_offset m)) w.
Proof.
  intros HP.
  assert (H : is_out_of_bound_read W x m = false).
  { unfold is_out_of_bound_read. rewrite HP. simpl. apply andb_false_r. }
  split; [exact H|]. split.
  - unfold oob_bytes. rewrite H. reflexivity.
  - apply WriteXorExtent_in_bounds, H.
Qed.

(** ** Independence from the error log *)

Lemma same_io_refl (w : World) : same_io w w.
Proof. split; reflexivity. Qed.

Lemma log_independent_ret {A} (a : A) : log_independent (ret a).
Proof. intros w1 w2 H. split; [reflexivity | exact H]. Qed.

Lemma log_independent_bind {A B} (m : M A) (k : A -> M B) :
  log_independent m -> (forall a, log_independent (k a)) ->
  log_independent (bind m k).
Proof.
  intros Hm Hk w1 w2 H. unfold bind.
  destruct (Hm w1 w2 H) as [E S].
  destruct (m w1) as [a1 u1], (m w2) as [a2 u2]. simpl in E, S. subst a2.
  apply Hk, S.
Qed.

Lemma log_independent_test (m k : M bool) :
  log_independent m -> log_independent k ->
  log_independent (test_and_return_false m k).
Proof.
  intros Hm Hk. apply log_independent_bind; [exact Hm|].
  intros [|]; [exact Hk | apply log_independent_ret].
Qed.

Lemma log_independent_log_error (e : LogError) :
  log_independent (log_error e).
Proof. intros w1 w2 [H1 H2]. repeat split; assumption. Qed.

Lemma log_independent_pread (W : XORExtentWriter) (count offset : Z) :
  log_independent (pread W count offset).
Proof.
  intros w1 w2 [H1 H2]. unfold pread, same_io. simpl.
  rewrite H1, H2. repeat split.
Qed.

Lemma log_independent_cow_call (W : XORExtentWriter) (c : CowCall) :
  log_independent (cow_call W c).
Proof.
  intros w1 w2 [H1 H2]. unfold cow_call, same_io. simpl.
  rewrite H1, H2. repeat split.
Qed.

Create HintDb log_independence.
#[local] Hint Resolve log_independent_ret log_independent_bind
  log_independent_test log_independent_log_error log_independent_pread
  log_independent_cow_call : log_independence.

Lemma log_independent_WriteXorCowOp (W : XORExtentWriter) (buf : bytes)
    (size : Z) (x : Extent) (off : Z) :
  log_independent (WriteXorCowOp W buf size x off).
Proof.
  unfold WriteXorCowOp.
  apply log_independent_bind; [auto with log_independence|].
  intros [data|]; [|auto with log_independence].
  destruct (negb _); auto 6 with log_independence.
Qed.

Lemma log_independent_write_split (W : XORExtentWriter) (buf : bytes)
    (x : Extent) (m : CowMergeOperation) :
  log_independent (write_split W buf x m).
Proof.
  unfold write_split, write_non_oob, write_last_block.
  apply log_independent_test.
  - destruct (_ >? 0); [apply log_independent_WriteXorCowOp
                       | apply log_independent_ret].
  - apply log_independent_test;
      [apply log_independent_WriteXorCowOp | apply log_independent_ret].
Qed.

(** C5.  With an overrun below a block that is larger than the sub-block
    shift of the operation, [WriteXorExtent] logs the condition and goes on
    with the two writes of the split: its result, its reads and its calls to
    the COW writer are those of the split alone. *)
Theorem WriteXorExtent_tolerates_offset_overrun (W : XORExtentWriter)
    (buf : bytes) (size : Z) (x : Extent) (m : CowMergeOperation) (w : World) :
  is_out_of_bound_read W x m = true ->
  src_offset m < oob_bytes W x m < BlockSize W ->
  let logged :=
    snd (log_error (OverflowedSourceOffset (oob_bytes W x m) (src_offset m)) w) in
  let r := WriteXorExtent W buf size x m w in
  r = write_split W buf x m logged /\
  fst r = fst (write_split W buf x m w) /\
  cow_calls (snd r) = cow_calls (snd (write_split W buf x m w)) /\
  reads (snd r) = reads (snd (write_split W buf x m w)).
Proof.
  intros H [L1 L2] logged r.
  assert (E : r = write_split W buf x m logged).
  { subst r. rewrite WriteXorExtent_oob_branch by assumption.
    apply Z.gtb_lt in L1. rewrite L1. reflexivity. }
  split; [exact E|]. rewrite E.
  assert (S : same_io logged w) by (split; reflexivity).
  destruct (log_independent_write_split W buf x m logged w S) as [F [C R]].
  auto.
Qed.

(** ** The out-of-bound branch *)

Lemma source_range_exact (W : XORExtentWriter) (x : Extent)
    (m : CowMergeOperation) :
  source_range_fits W x m ->
  let end_block := src_block_of x m + num_blocks x in
  read_end_offset W x m = end_block * BlockSize W + src_offset m /\
  last_block_src_offset W x m = (end_block - 1) * BlockSize W.
Proof.
  intros (HB & HP & HO & HN & HF) end_block.
  assert (HS : 0 <= src_block_of x m < modulus)
    by (unfold src_block_of, sub64; apply wrap_range).
  fold end_block in HF.
  assert (HE : 1 <= end_block) by (unfold end_block; lia).
  assert (HM : end_block <= end_block * BlockSize W) by nia.
  unfold read_end_offset, last_block_src_offset, add64, sub64, mul64.
  fold end_block.
  rewrite (wrap_small end_block) by lia.
  rewrite (wrap_small (end_block - 1)) by lia.
  rewrite (wrap_small (end_block * BlockSize W)) by nia.
  rewrite (wrap_small (end_block * BlockSize W + src_offset m)) by lia.
  split; [reflexivity|]. apply wrap_small. nia.
Qed.

(** C1, as the code has it.  With an overrun below a block, [WriteXorExtent]
    writes the blocks before the last one (when there is one) at the source
    offset [src_block * block_size + src_offset] and then the last block
    alone at [(src_block + num_blocks - 1) * block_size].  For offsets that
    fit in 64 bits, the read of the last block ends at
    [partition_size + oob_bytes - src_offset]: it stays within the partition
    size exactly when [oob_bytes <= src_offset]. *)
Theorem WriteXorExtent_clips_last_block (W : XORExtentWriter) (buf : bytes)
    (size : Z) (x : Extent) (m : CowMergeOperation) (w : World) :
  is_out_of_bound_read W x m = true ->
  oob_bytes W x m < BlockSize W ->
  let src_block := src_block_of x m in
  let n := num_blocks x in
  let last_offset := mul64 (sub64 (add64 src_block n) 1) (BlockSize W) in
  WriteXorExtent W buf size x m w =
    ((if oob_bytes W x m >? src_offset m
      then log_error (OverflowedSourceOffset (oob_bytes W x m) (src_offset m))
      else ret tt) ;;
     TEST_AND_RETURN_FALSE
       (if sub64 n 1 >? 0
        then WriteXorCowOp W buf (mul64 (BlockSize W) (sub64 n 1))
               (mkExtent (start_block x) (sub64 n 1))
               (add64 (mul64 src_block (BlockSize W)) (src_offset m))
        else ret true) ;;;
     TEST_AND_RETURN_FALSE
       WriteXorCowOp W (advance buf (mul64 (sub64 n 1) (BlockSize W)))
         (BlockSize W)
         (mkExtent (sub64 (add64 (start_block x) n) 1) 1)
         last_offset ;;;
     ret true) w /\
  (source_range_fits W x m ->
   0 < oob_bytes W x m /\
   last_offset = (src_block + n - 1) * BlockSize W /\
   last_offset + BlockSize W =
     partition_size_ W + oob_bytes W x m - src_offset m /\
   (last_offset + BlockSize W <= partition_size_ W <->
    oob_bytes W x m <= src_offset m) /\
   (last_offset <= partition_size_ W - BlockSize W <->
    oob_bytes W x m <= src_offset m)).
Proof.
  intros H L src_block n last_offset. split.
  - rewrite WriteXorExtent_oob_branch by assumption. reflexivity.
  - intros F. destruct (source_range_exact W x m F) as [HE HL].
    fold src_block n in HE, HL.
    change (last_block_src_offset W x m) with last_offset in HL.
    pose proof H as H'. apply is_out_of_bound_read_spec in H'.
    destruct H' as [HG HZ].
    destruct F as (HB & HP & HO & HN & HF). fold src_block n in HF.
    assert (HOOB : oob_bytes W x m =
                   read_end_offset W x m - partition_size_ W).
    { unfold oob_bytes. rewrite H. unfold sub64. apply wrap_small. lia. }
    lia.
Qed.

Lemma mul64_multiple (k b : Z) :
  0 < b -> (b | modulus) \/ 0 <= k * b < modulus ->
  mul64 k b mod b = 0.
Proof.
  intros Hb [D|R]; unfold mul64.
  - apply Z.mod_divide; [lia|]. unfold wrap.
    rewrite Z.mod_eq by (rewrite modulus_eq; lia).
    apply Z.divide_sub_r.
    + apply Z.divide_factor_r.
    + apply Z.divide_mul_l, D.
  - rewrite wrap_small by exact R. apply Z.mod_mul. lia.
Qed.

Lemma WriteXorCowOp_calls (W : XORExtentWriter) (buf : bytes) (size : Z)
    (x : Extent) (off : Z) (w : World) :
  exists calls,
    cow_calls (snd (WriteXorCowOp W buf size x off w)) = cow_calls w ++ calls /\
    (calls = [] \/ exists src, calls = [xor_call W buf x off src]).
Proof.
  destruct (WriteXorCowOp_outcome W buf size x off w) as [_ [[_ C]|[src S]]].
  - exists []. rewrite app_nil_r. auto.
  - destruct S as (_ & _ & _ & C & _). exists [xor_call W buf x off src].
    split; [exact C|]. right. exists src. reflexivity.
Qed.

(** The calls of the out-of-bound branch: at most one for the blocks before
    the last one, then at most one for the last block. *)
Lemma write_split_calls (W : XORExtentWriter) (buf : bytes) (x : Extent)
    (m : CowMergeOperation) (w : World) :
  exists pre last,
    cow_calls (snd (write_split W buf x m w)) = cow_calls w ++ pre ++ last /\
    (pre = [] \/
     exists src, pre = [xor_call W buf (non_oob_extent x)
                                 (whole_src_offset W x m) src]) /\
    (last = [] \/
     exists src,
       last = [xor_call W
                 (advance buf (mul64 (sub64 (num_blocks x) 1) (BlockSize W)))
                 (last_block x) (last_block_src_offset W x m) src]).
Proof.
  unfold write_split, test_and_return_false, bind.
  assert (P : exists pre,
    cow_calls (snd (write_non_oob W buf x m w)) = cow_calls w ++ pre /\
    (pre = [] \/
     exists src, pre = [xor_call W buf (non_oob_extent x)
                                 (whole_src_offset W x m) src])).
  { unfold write_non_oob. destruct (_ >? 0).
    - apply WriteXorCowOp_calls.
    - exists []. rewrite app_nil_r. auto. }
  destruct P as (pre & CP & HP).
  destruct (write_non_oob W buf x m w) as [b w1]. simpl in CP.
  destruct b.
  - destruct (WriteXorCowOp_calls W
                (advance buf (mul64 (sub64 (num_blocks x) 1) (BlockSize W)))
                (BlockSize W) (last_block x) (last_block_src_offset W x m) w1)
      as (last & CL & HL).
    fold (write_last_block W buf x m) in CL.
    exists pre, last. split; [|auto].
    destruct (write_last_block W buf x m w1) as [b2 w2]. simpl in CL.
    rewrite CP, <- app_assoc in CL. destruct b2; exact CL.
  - exists pre, []. rewrite app_nil_r. auto.
Qed.

(** C10.  In the out-of-bound branch the source offset of the last block is
    a multiple of the block size, so that every call the branch makes to the
    COW writer for the last block has the sub-block offset 0, whatever the
    shift [src_offset] of the operation, which the call for the blocks before
    keeps.  The block size is positive and divides [2^64], or the offset
    does not wrap around. *)
Theorem WriteXorExtent_last_block_drops_shift (W : XORExtentWriter)
    (buf : bytes) (size : Z) (x : Extent) (m : CowMergeOperation) (w : World) :
  0 < BlockSize W ->
  last_block_offset_exact W x m ->
  is_out_of_bound_read W x m = true ->
  oob_bytes W x m < BlockSize W ->
  let last_offset :=
    mul64 (sub64 (add64 (src_block_of x m) (num_blocks x)) 1) (BlockSize W) in
  let whole_offset :=
    add64 (mul64 (src_block_of x m) (BlockSize W)) (src_offset m) in
  last_offset mod BlockSize W = 0 /\
  exists pre last,
    cow_calls (snd (WriteXorExtent W buf size x m w)) =
      cow_calls w ++ pre ++ last /\
    (pre = [] \/
     exists data,
       pre = [AddXorBlocks (start_block x) data
                (mul64 (BlockSize W) (sub64 (num_blocks x) 1))
                (whole_offset / BlockSize W) (whole_offset mod BlockSize W)]) /\
    (last = [] \/
     exists data,
       last = [AddXorBlocks
                 (sub64 (add64 (start_block x) (num_blocks x)) 1) data
                 (mul64 (BlockSize W) 1)
                 (last_offset / BlockSize W) 0]).
Proof.
  intros HB HX H L last_offset whole_offset.
  assert (HM : last_offset mod BlockSize W = 0).
  { apply mul64_multiple; [exact HB|].
    destruct HX as [D|R]; [left; exact D|right].
    split; [|exact R].
    apply Z.mul_nonneg_nonneg; [apply wrap_range | lia]. }
  split; [exact HM|].
  rewrite WriteXorExtent_oob_branch by assumption.
  set (w0 := snd ((if oob_bytes W x m >? src_offset m
                   then log_error (OverflowedSourceOffset (oob_bytes W x m)
                                                          (src_offset m))
                   else ret tt) w)).
  assert (C0 : cow_calls w0 = cow_calls w)
    by (subst w0; destruct (_ >? _); reflexivity).
  destruct (write_split_calls W buf x m w0) as (pre & last & C & HP & HL).
  exists pre, last. split.
  - rewrite <- C0, <- C. subst w0. unfold bind.
    destruct (_ >? _); reflexivity.
  - split.
    + destruct HP as [->|[src ->]]; [left; reflexivity|right].
      eexists. reflexivity.
    + destruct HL as [->|[src ->]]; [left; reflexivity|right].
      eexists. unfold xor_call.
      change (last_block_src_offset W x m) with last_offset.
      rewrite HM. reflexivity.
Qed.

(** ** [WriteExtent] *)

Lemma WriteExtent_step_invalid (W : XORExtentWriter) (buf : bytes)
    (extent x : Extent) (w : World) :
  invalid_xor_extent W extent x ->
  fst (WriteExtent_step W buf extent x w) = false /\
  same_io (snd (WriteExtent_step W buf extent x w)) w.
Proof.
  unfold WriteExtent_step, same_io.
  intros [N|(m & S & H)]; rewrite ?N, ?S; [repeat split|].
  unfold test_and_return_false, bind, ret.
  destruct (has_src_extent m); [|repeat split].
  destruct (has_dst_extent m); [|repeat split].
  destruct (ExtentContains extent x); [|repeat split].
  destruct (ExtentContains (dst_extent m) x); [|repeat split].
  destruct H as [H|[H|[H|H]]]; discriminate.
Qed.

(** The loop stops at an invalid extent: what it has done then is what it
    does for the extents before. *)
Lemma WriteExtent_loop_invalid (W : XORExtentWriter) (buf : bytes)
    (extent x : Extent) (pre post : list Extent) :
  invalid_xor_extent W extent x ->
  forall w,
    fst (WriteExtent_loop W buf extent (pre ++ x :: post) w) = false /\
    same_io (snd (WriteExtent_loop W buf extent (pre ++ x :: post) w))
            (snd (WriteExtent_loop W buf extent pre w)).
Proof.
  intros H. induction pre as [|a pre IH]; intros w; simpl;
    unfold test_and_return_false, bind.
  - destruct (WriteExtent_step_invalid W buf extent x w H) as [F S].
    destruct (WriteExtent_step W buf extent x w) as [b w1]. simpl in F, S.
    subst b. exact (conj eq_refl S).
  - destruct (WriteExtent_step W buf extent a w) as [[|] w1].
    + apply IH.
    + split; [reflexivity | apply same_io_refl].
Qed.

(** C3.  When the XOR map returns a sub-extent for which it holds no merge
    operation, or whose operation lacks its source or its destination
    extent, or that is not inside the request extent, or not inside the
    destination extent of its operation, [WriteExtent] returns false, and
    its calls to the COW writer (and its reads) are those made for the
    sub-extents before that one: nothing is done for the sub-extents after
    it, nor for the replace extents. *)
Theorem WriteExtent_stops_at_invalid_xor_extent (W : XORExtentWriter)
    (buf : bytes) (extent : Extent) (size : Z) (pre post : list Extent)
    (x : Extent) (w : World) :
  GetIntersectingExtents (xor_map_ W) extent = pre ++ x :: post ->
  invalid_xor_extent W extent x ->
  let r := WriteExtent W buf extent size w in
  let before := WriteExtent_loop W buf extent pre w in
  fst r = false /\
  cow_calls (snd r) = cow_calls (snd before) /\
  reads (snd r) = reads (snd before).
Proof.
  intros HG HI r before. subst r before.
  unfold WriteExtent, test_and_return_false, bind. rewrite HG.
  destruct (WriteExtent_loop_invalid W buf extent x pre post HI w) as [F S].
  destruct (WriteExtent_loop W buf extent (pre ++ x :: post) w) as [b w1].
  simpl in F, S. subst b. destruct S as [C R]. repeat split; assumption.
Qed.

(** ** [WriteReplaceExtents] *)

(** The call [WriteReplaceExtents] makes for the replace extent [ext]. *)
Lemma WriteReplaceExtents_cons (W : XORExtentWriter) (ext : Extent)
    (rest : list Extent) (extent : Extent) (buf : bytes) (size : Z) :
  WriteReplaceExtents W (ext :: rest) extent buf size =
  if add64 (start_block ext) (num_blocks ext) >?
     add64 (start_block extent) (num_blocks extent)
  then log_error (ReplaceNotInsideInstallOp ext extent) ;; ret false
  else TEST_AND_RETURN_FALSE cow_call W (raw_call W buf extent ext) ;;;
       WriteReplaceExtents W rest extent buf size.
Proof. reflexivity. Qed.

(** [WriteReplaceExtents] only adds calls to those already made. *)
Lemma WriteReplaceExtents_appends (W : XORExtentWriter)
    (replace_extents : list Extent) (extent : Extent) (buf : bytes)
    (size : Z) :
  forall w, exists calls,
    cow_calls (snd (WriteReplaceExtents W replace_extents extent buf size w)) =
    cow_calls w ++ calls.
Proof.
  induction replace_extents as [|ext rest IH]; intros w.
  - exists []. simpl. now rewrite app_nil_r.
  - rewrite WriteReplaceExtents_cons. destruct (_ >? _).
    + exists []. simpl. now rewrite app_nil_r.
    + unfold test_and_return_false, bind, cow_call.
      destruct (cow_accepts W _ _).
      * match goal with |- context [WriteReplaceExtents _ _ _ _ _ ?v] =>
          destruct (IH v) as [calls C] end.
        rewrite C. simpl. rewrite <- app_assoc. eexists. reflexivity.
      * simpl. eexists. reflexivity.
Qed.

(** The first replace extent: refused when it ends after the request
    extent, forwarded as a raw block write otherwise. *)
Lemma WriteReplaceExtents_head (W : XORExtentWriter) (ext : Extent)
    (rest : list Extent) (extent : Extent) (buf : bytes) (size : Z)
    (w : World) :
  let r := WriteReplaceExtents W (ext :: rest) extent buf size w in
  if add64 (start_block ext) (num_blocks ext) >?
     add64 (start_block extent) (num_blocks extent)
  then fst r = false /\ cow_calls (snd r) = cow_calls w
  else exists calls,
         cow_calls (snd r) = cow_calls w ++ raw_call W buf extent ext :: calls.
Proof.
  cbv zeta. rewrite WriteReplaceExtents_cons. destruct (_ >? _).
  - split; reflexivity.
  - unfold test_and_return_false, bind, cow_call.
    destruct (cow_accepts W _ _).
    + match goal with |- context [WriteReplaceExtents _ _ _ _ _ ?v] =>
        destruct (WriteReplaceExtents_appends W rest extent buf size v)
          as [calls C] end.
      rewrite C. simpl. rewrite <- app_assoc. eexists. reflexivity.
    + simpl. exists []. reflexivity.
Qed.

(** C6, at a replace extent that starts before the request extent.  The
    extent of blocks 8 to 10 is not inside the request of blocks 10 to 14,
    yet [WriteReplaceExtents] returns true and makes a raw block write for
    block 8: the pointer it passes is 8192 bytes before the caller's buffer,
    where the model has no bytes to read. *)
Theorem WriteReplaceExtents_accepts_early_extent :
  ExtentContains Demo.request Demo.early_extent = false /\
  WriteReplaceExtents Demo.unbounded_writer [Demo.early_extent] Demo.request
    Demo.request_data 20480 initial =
  (true, mkWorld [AddRawBlocks 8 [] 12288] [] []).
Proof. split; vm_compute; reflexivity. Qed.

(** * The properties at concrete writers *)

(** Two blocks written against a device of two blocks: the delta and the
    source give the new content back. *)
Lemma WriteXorCowOp_xor_roundtrip_witness :
  exists src delta,
    PReadAll Demo.unbounded_writer 8192 0 = Some src /\
    delta = transform_bit_xor src Demo.new_data /\
    cow_calls (snd (WriteXorCowOp Demo.unbounded_writer Demo.new_data 8192
                      Demo.xor_ext 0 initial)) =
      [AddXorBlocks 100 delta 8192 0 0] /\
    transform_bit_xor delta src = Demo.new_data.
Proof.
  assert (R : WriteXorCowOp Demo.unbounded_writer Demo.new_data 8192
                Demo.xor_ext 0 initial =
              (true, snd (WriteXorCowOp Demo.unbounded_writer Demo.new_data
                            8192 Demo.xor_ext 0 initial)))
    by (vm_compute; reflexivity).
  destruct (WriteXorCowOp_xor_roundtrip _ _ _ _ _ _ _ R)
    as (src & delta & HR & _ & HD & HC & HX).
  exists src, delta. repeat split.
  - exact HR.
  - exact HD.
  - exact HC.
  - apply HX. vm_compute. discriminate.
Defined.

(** The device ends 100 bytes before the end of the read: a short read. *)
Lemma WriteXorCowOp_read_failure_witness :
  fst (WriteXorCowOp Demo.short_writer Demo.new_data 8192 Demo.xor_ext 0
         initial) = false /\
  cow_calls (snd (WriteXorCowOp Demo.short_writer Demo.new_data 8192
                    Demo.xor_ext 0 initial)) = [].
Proof.
  apply (WriteXorCowOp_read_failure Demo.short_writer Demo.new_data 8192
           Demo.xor_ext 0 initial).
  right. exists (repeat 90 (Z.to_nat 8092)). split.
  - vm_compute. reflexivity.
  - vm_compute. discriminate.
Defined.

(** Two blocks read from a partition of one block. *)
Lemma WriteXorExtent_rejects_block_overrun_witness :
  fst (WriteXorExtent Demo.one_block_writer Demo.new_data 8192 Demo.xor_ext
         Demo.merge_op initial) = false /\
  cow_calls (snd (WriteXorExtent Demo.one_block_writer Demo.new_data 8192
                    Demo.xor_ext Demo.merge_op initial)) = [] /\
  reads (snd (WriteXorExtent Demo.one_block_writer Demo.new_data 8192
                Demo.xor_ext Demo.merge_op initial)) = [].
Proof.
  apply (WriteXorExtent_rejects_block_overrun Demo.one_block_writer
           Demo.new_data 8192 Demo.xor_ext Demo.merge_op initial).
  - vm_compute. discriminate.
  - vm_compute. reflexivity.
  - vm_compute. discriminate.
Defined.

(** The second block of the destination extent is re-based on the second
    block of the source extent. *)
Lemma WriteXorExtent_source_block_witness :
  src_block_of (mkExtent 101 1) Demo.merge_op = 1 /\
  WriteXorExtent Demo.unbounded_writer Demo.new_data 4096 (mkExtent 101 1)
    Demo.merge_op initial =
  WriteXorCowOp Demo.unbounded_writer Demo.new_data 4096 (mkExtent 101 1)
    4096 initial.
Proof.
  destruct (WriteXorExtent_source_block Demo.unbounded_writer Demo.new_data
              4096 (mkExtent 101 1) Demo.merge_op initial) as (_ & E & H).
  split.
  - apply E; vm_compute; try reflexivity; discriminate.
  - apply H. vm_compute. reflexivity.
Defined.

(** A writer that does not know the partition size. *)
Lemma WriteXorExtent_unknown_partition_size_witness :
  is_out_of_bound_read Demo.unbounded_writer Demo.xor_ext Demo.merge_op = false /\
  oob_bytes Demo.unbounded_writer Demo.xor_ext Demo.merge_op = 0 /\
  WriteXorExtent Demo.unbounded_writer Demo.new_data 8192 Demo.xor_ext
    Demo.merge_op initial =
  WriteXorCowOp Demo.unbounded_writer Demo.new_data 8192 Demo.xor_ext 0 initial.
Proof.
  apply (WriteXorExtent_unknown_partition_size Demo.unbounded_writer
           Demo.new_data 8192 Demo.xor_ext Demo.merge_op initial).
  reflexivity.
Defined.

(** An overrun of 100 bytes with no shift: logged, and the write succeeds
    on a device that is longer than the recorded partition size. *)
Lemma WriteXorExtent_tolerates_offset_overrun_witness :
  oob_bytes Demo.writer Demo.xor_ext Demo.merge_op = 100 /\
  src_offset Demo.merge_op = 0 /\
  fst (WriteXorExtent Demo.writer Demo.new_data 8192 Demo.xor_ext
         Demo.merge_op initial) = true /\
  errors (snd (WriteXorExtent Demo.writer Demo.new_data 8192 Demo.xor_ext
                 Demo.merge_op initial)) = [OverflowedSourceOffset 100 0] /\
  cow_calls (snd (WriteXorExtent Demo.writer Demo.new_data 8192 Demo.xor_ext
                    Demo.merge_op initial)) =
  cow_calls (snd (write_split Demo.writer Demo.new_data Demo.xor_ext
                    Demo.merge_op initial)).
Proof.
  assert (H : is_out_of_bound_read Demo.writer Demo.xor_ext Demo.merge_op = true)
    by (vm_compute; reflexivity).
  assert (L : src_offset Demo.merge_op <
              oob_bytes Demo.writer Demo.xor_ext Demo.merge_op <
              BlockSize Demo.writer)
    by (split; vm_compute; reflexivity).
  destruct (WriteXorExtent_tolerates_offset_overrun Demo.writer Demo.new_data
              8192 Demo.xor_ext Demo.merge_op initial H L) as (E & F & C & _).
  split; [vm_compute; reflexivity|]. split; [reflexivity|].
  split; [rewrite F; vm_compute; reflexivity|].
  split; [rewrite E; vm_compute; reflexivity|].
  exact C.
Defined.

(** An overrun of 100 bytes under a shift of 200 bytes: the last block is
    read without the shift and ends inside the partition. *)
Lemma WriteXorExtent_clips_last_block_witness :
  oob_bytes Demo.shifted_writer Demo.xor_ext Demo.shifted_op = 100 /\
  reads (snd (WriteXorExtent Demo.shifted_writer Demo.new_data 8192
                Demo.xor_ext Demo.shifted_op initial)) =
    [mkRead 200 4096; mkRead 4096 4096] /\
  last_block_src_offset Demo.shifted_writer Demo.xor_ext Demo.shifted_op +
    BlockSize Demo.shifted_writer <= partition_size_ Demo.shifted_writer.
Proof.
  assert (H : is_out_of_bound_read Demo.shifted_writer Demo.xor_ext
                Demo.shifted_op = true) by (vm_compute; reflexivity).
  assert (L : oob_bytes Demo.shifted_writer Demo.xor_ext Demo.shifted_op <
              BlockSize Demo.shifted_writer) by (vm_compute; reflexivity).
  assert (F : source_range_fits Demo.shifted_writer Demo.xor_ext
                Demo.shifted_op)
    by (repeat split; vm_compute; try reflexivity; discriminate).
  destruct (WriteXorExtent_clips_last_block Demo.shifted_writer Demo.new_data
              8192 Demo.xor_ext Demo.shifted_op initial H L) as [E P].
  split; [vm_compute; reflexivity|]. split.
  - rewrite E. vm_compute. reflexivity.
  - destruct (P F) as (_ & _ & _ & I & _). apply I.
    vm_compute. discriminate.
Defined.

(** C1 fails where the overrun is larger than the sub-block shift.  The
    partition size is 8092, the blocks have 4096 bytes, and the operation
    reads source blocks 0 and 1 without a shift: the overrun is of 100
    bytes, and the last block is read at offset 4096, which is beyond
    [partition_size - block_size = 3996]; the read ends at 8192, beyond the
    partition size. *)
Lemma WriteXorExtent_last_block_read_overruns :
  partition_size_ Demo.writer = 8092 /\
  BlockSize Demo.writer = 4096 /\
  is_out_of_bound_read Demo.writer Demo.xor_ext Demo.merge_op = true /\
  oob_bytes Demo.writer Demo.xor_ext Demo.merge_op = 100 /\
  WriteXorExtent Demo.writer Demo.new_data 8192 Demo.xor_ext Demo.merge_op
    initial =
  (true,
   mkWorld
     [AddXorBlocks 100 (repeat 102 (Z.to_nat 4096)) 4096 0 0;
      AddXorBlocks 101 (repeat 153 (Z.to_nat 4096)) 4096 1 0]
     [mkRead 0 4096; mkRead 4096 4096]
     [OverflowedSourceOffset 100 0]) /\
  last_block_src_offset Demo.writer Demo.xor_ext Demo.merge_op = 4096 /\
  ~ (last_block_src_offset Demo.writer Demo.xor_ext Demo.merge_op +
       BlockSize Demo.writer <= partition_size_ Demo.writer) /\
  ~ (last_block_src_offset Demo.writer Demo.xor_ext Demo.merge_op <=
       partition_size_ Demo.writer - BlockSize Demo.writer).
Proof.
  repeat split; try (vm_compute; reflexivity);
    intros C; vm_compute in C; apply C; reflexivity.
Qed.

(** Under a shift of 200 bytes, the call for the blocks before the last has
    the sub-block offset 200 and the call for the last block has 0. *)
Lemma WriteXorExtent_last_block_drops_shift_witness :
  src_offset Demo.shifted_op = 200 /\
  cow_calls (snd (WriteXorExtent Demo.shifted_writer Demo.new_data 8192
                    Demo.xor_ext Demo.shifted_op initial)) =
    [AddXorBlocks 100 (repeat 102 (Z.to_nat 4096)) 4096 0 200;
     AddXorBlocks 101 (repeat 153 (Z.to_nat 4096)) 4096 1 0] /\
  last_block_src_offset Demo.shifted_writer Demo.xor_ext Demo.shifted_op
    mod BlockSize Demo.shifted_writer = 0.
Proof.
  assert (B : 0 < BlockSize Demo.shifted_writer) by reflexivity.
  assert (X : last_block_offset_exact Demo.shifted_writer Demo.xor_ext
                Demo.shifted_op)
    by (left; exists 4503599627370496; reflexivity).
  assert (H : is_out_of_bound_read Demo.shifted_writer Demo.xor_ext
                Demo.shifted_op = true) by (vm_compute; reflexivity).
  assert (L : oob_bytes Demo.shifted_writer Demo.xor_ext Demo.shifted_op <
              BlockSize Demo.shifted_writer) by (vm_compute; reflexivity).
  destruct (WriteXorExtent_last_block_drops_shift Demo.shifted_writer
              Demo.new_data 8192 Demo.xor_ext Demo.shifted_op initial B X H L)
    as [M _].
  split; [reflexivity|]. split; [vm_compute; reflexivity | exact M].
Defined.

(** The map returns the blocks 100 and 101 and holds an operation for block
    100 only: block 100 is written, then the request fails. *)
Lemma WriteExtent_stops_at_invalid_xor_extent_witness :
  Get (xor_map_ Demo.stale_writer) (mkExtent 101 1) = None /\
  fst (WriteExtent Demo.stale_writer Demo.new_data Demo.install_extent 8192
         initial) = false /\
  cow_calls (snd (WriteExtent Demo.stale_writer Demo.new_data
                    Demo.install_extent 8192 initial)) =
    [AddXorBlocks 100 (repeat 102 (Z.to_nat 4096)) 4096 0 0].
Proof.
  assert (G : GetIntersectingExtents (xor_map_ Demo.stale_writer)
                Demo.install_extent = [mkExtent 100 1] ++ mkExtent 101 1 :: [])
    by reflexivity.
  assert (I : invalid_xor_extent Demo.stale_writer Demo.install_extent
                (mkExtent 101 1)) by (left; reflexivity).
  destruct (WriteExtent_stops_at_invalid_xor_extent Demo.stale_writer
              Demo.new_data Demo.install_extent 8192 _ _ _ initial G I)
    as (F & C & _).
  split; [reflexivity|]. split; [exact F|].
  rewrite C. vm_compute. reflexivity.
Defined.

(** * Further properties of the methods *)

(** ** Sequencing *)

Lemma test_assoc (a b c : M bool) (w : World) :
  (TEST_AND_RETURN_FALSE (TEST_AND_RETURN_FALSE a ;;; b) ;;; c) w =
  (TEST_AND_RETURN_FALSE a ;;; TEST_AND_RETURN_FALSE b ;;; c) w.
Proof.
  unfold test_and_return_false, bind, ret.
  destruct (a w) as [[|] w1]; reflexivity.
Qed.

Lemma test_ret_true_l (k : M bool) (w : World) :
  (TEST_AND_RETURN_FALSE ret true ;;; k) w = k w.
Proof. reflexivity. Qed.

Lemma advance_skipn (p : bytes) (k : Z) :
  0 <= k -> advance p k = skipn (Z.to_nat k) p.
Proof.
  intros H. unfold advance. destruct (Z.of_nat (length p) <=? k) eqn:E.
  - apply Z.leb_le in E. symmetry. apply skipn_all2. lia.
  - reflexivity.
Qed.

Lemma read_at_firstn_to_nat (p : bytes) (n : Z) :
  read_at p n = firstn (Z.to_nat n) p.
Proof.
  unfold read_at. destruct (Z.of_nat (length p) <=? n) eqn:E.
  - apply Z.leb_le in E. symmetry. apply firstn_all2. lia.
  - reflexivity.
Qed.

(** ** [WriteReplaceExtents], continued *)

(** X1.  Replace extents are written in sequence: the extents of a second
    list are written after those of a first list, and only when the first
    list was written without a failure. *)
Theorem WriteReplaceExtents_app (W : XORExtentWriter) (l1 l2 : list Extent)
    (extent : Extent) (buf : bytes) (size : Z) (w : World) :
  WriteReplaceExtents W (l1 ++ l2) extent buf size w =
  (TEST_AND_RETURN_FALSE WriteReplaceExtents W l1 extent buf size ;;;
   WriteReplaceExtents W l2 extent buf size) w.
Proof.
  revert w. induction l1 as [|ext l1 IH]; intros w.
  - reflexivity.
  - rewrite <- app_comm_cons, !WriteReplaceExtents_cons.
    destruct (_ >? _); [reflexivity|].
    rewrite test_assoc.
    unfold test_and_return_false, bind.
    destruct (cow_call W (raw_call W buf extent ext) w) as [[|] w1];
      [|reflexivity].
    rewrite IH. reflexivity.
Qed.

(** Where a replace extent ends after the request extent the method stops. *)
Lemma WriteReplaceExtents_overhang (W : XORExtentWriter) (ext : Extent)
    (rest : list Extent) (extent : Extent) (buf : bytes) (size : Z)
    (w : World) :
  add64 (start_block ext) (num_blocks ext) >
  add64 (start_block extent) (num_blocks extent) ->
  WriteReplaceExtents W (ext :: rest) extent buf size w =
  (false, mkWorld (cow_calls w) (reads w)
                  (errors w ++ [ReplaceNotInsideInstallOp ext extent])).
Proof.
  intros H. rewrite WriteReplaceExtents_cons.
  apply Z.gtb_gt in H. rewrite H. reflexivity.
Qed.

(** X2.  A replace extent that ends after the request extent makes
    [WriteReplaceExtents] return false: the calls to the COW writer are
    those made for the extents before it, nothing is written for it or for
    the extents after it, and no source read is made. *)
Theorem WriteReplaceExtents_stops_at_overhang (W : XORExtentWriter)
    (pre post : list Extent) (ext extent : Extent) (buf : bytes) (size : Z)
    (w : World) :
  add64 (start_block ext) (num_blocks ext) >
  add64 (start_block extent) (num_blocks extent) ->
  let r := WriteReplaceExtents W (pre ++ ext :: post) extent buf size w in
  let before := WriteReplaceExtents W pre extent buf size w in
  fst r = false /\
  cow_calls (snd r) = cow_calls (snd before) /\
  reads (snd r) = reads (snd before) /\
  (fst before = true ->
   errors (snd r) =
   errors (snd before) ++ [ReplaceNotInsideInstallOp ext extent]).
Proof.
  intros H. cbv zeta. revert w. induction pre as [|e pre IH]; intros w.
  - simpl app. rewrite WriteReplaceExtents_overhang by exact H. simpl. auto.
  - rewrite <- app_comm_cons, !WriteReplaceExtents_cons.
    destruct (_ >? _); [simpl; repeat split; discriminate|].
    unfold test_and_return_false, bind.
    destruct (cow_call W (raw_call W buf extent e) w) as [[|] w1].
    + apply IH.
    + simpl. repeat split. discriminate.
Qed.

(** X3.  When [WriteReplaceExtents] returns true it has made exactly one
    [AddRawBlocks] call for each replace extent, in the order of the list,
    each extent passed the end check, and nothing was read from the source
    or logged. *)
Theorem WriteReplaceExtents_success (W : XORExtentWriter)
    (replace_extents : list Extent) (extent : Extent) (buf : bytes)
    (size : Z) (w w' : World) :
  WriteReplaceExtents W replace_extents extent buf size w = (true, w') ->
  w' = mkWorld (cow_calls w ++ map (raw_call W buf extent) replace_extents)
               (reads w) (errors w) /\
  Forall (fun ext => add64 (start_block ext) (num_blocks ext) <=
                     add64 (start_block extent) (num_blocks extent))
         replace_extents.
Proof.
  revert w. induction replace_extents as [|ext rest IH]; intros w H.
  - simpl in H. injection H as <-. simpl. rewrite app_nil_r.
    destruct w; auto.
  - rewrite WriteReplaceExtents_cons in H.
    destruct (_ >? _) eqn:E; [discriminate|].
    unfold test_and_return_false, bind, cow_call in H.
    destruct (cow_accepts W _ _); [|discriminate].
    apply IH in H. destruct H as [-> F]. simpl. rewrite <- app_assoc.
    split; [reflexivity|]. constructor; [|exact F].
    rewrite Z.gtb_ltb in E. apply Z.ltb_ge in E. exact E.
Qed.

(** X4.  Whatever its result, [WriteReplaceExtents] reads nothing from the
    source, and its calls to the COW writer are the [AddRawBlocks] calls of
    the first extents of the list, in order: it never skips an extent and
    never writes an extent after a failure. *)
Theorem WriteReplaceExtents_calls_prefix (W : XORExtentWriter)
    (replace_extents : list Extent) (extent : Extent) (buf : bytes)
    (size : Z) (w : World) :
  let r := WriteReplaceExtents W replace_extents extent buf size w in
  reads (snd r) = reads w /\
  exists k,
    (k <= length replace_extents)%nat /\
    cow_calls (snd r) =
    cow_calls w ++ map (raw_call W buf extent) (firstn k replace_extents) /\
    (fst r = true -> k = length replace_extents).
Proof.
  cbv zeta. revert w.
  induction replace_extents as [|ext rest IH]; intros w.
  - simpl. split; [reflexivity|]. exists 0%nat. simpl.
    rewrite app_nil_r. auto.
  - rewrite WriteReplaceExtents_cons. destruct (_ >? _).
    + simpl. split; [reflexivity|]. exists 0%nat. simpl.
      rewrite app_nil_r. repeat split; [lia | discriminate].
    + unfold test_and_return_false, bind, cow_call.
      destruct (cow_accepts W _ _).
      * match goal with |- context [WriteReplaceExtents _ _ _ _ _ ?v] =>
          destruct (IH v) as (R & k & K & C & T) end.
        split; [exact R|]. exists (S k). simpl in *.
        rewrite C, <- app_assoc. repeat split; [lia|].
        intros Ht. f_equal. apply T, Ht.
      * simpl. split; [reflexivity|]. exists 1%nat. simpl.
        repeat split; [lia | discriminate].
Qed.

(** X5.  A replace extent inside the request extent, for a request whose
    byte size fits in 64 bits, is forwarded as the bytes of the buffer from
    byte [(ext.start_block - extent.start_block) * block_size] on,
    [ext.num_blocks * block_size] of them, unchanged, keyed by its start
    block; the result is the answer of the COW writer. *)
Theorem WriteReplaceExtents_forwards_slice (W : XORExtentWriter)
    (ext extent : Extent) (buf : bytes) (size : Z) (w : World) :
  0 <= start_block extent <= start_block ext ->
  0 <= num_blocks ext ->
  start_block ext + num_blocks ext <= start_block extent + num_blocks extent ->
  start_block extent + num_blocks extent < modulus ->
  0 <= BlockSize W ->
  num_blocks extent * BlockSize W < modulus ->
  let first_byte := (start_block ext - start_block extent) * BlockSize W in
  let len := num_blocks ext * BlockSize W in
  let data := firstn (Z.to_nat len) (skipn (Z.to_nat first_byte) buf) in
  let call := AddRawBlocks (start_block ext) data len in
  WriteReplaceExtents W [ext] extent buf size w =
    (cow_accepts W (cow_calls w) call,
     mkWorld (cow_calls w ++ [call]) (reads w) (errors w)) /\
  (first_byte + len <= Z.of_nat (length buf) -> Z.of_nat (length data) = len).
Proof.
  intros H1 H2 H3 H4 H5 H6 first_byte len data call.
  assert (E : raw_call W buf extent ext = call).
  { unfold raw_call, call, data, len, first_byte, sub64, mul64.
    rewrite (wrap_small (start_block ext - start_block extent)) by lia.
    rewrite (wrap_small ((start_block ext - start_block extent) * BlockSize W))
      by nia.
    rewrite (wrap_small (num_blocks ext * BlockSize W)) by nia.
    rewrite advance_skipn by nia. rewrite read_at_firstn_to_nat.
    reflexivity. }
  split.
  - rewrite WriteReplaceExtents_cons, E.
    unfold add64. rewrite !wrap_small by lia.
    destruct (_ >? _) eqn:G; [apply Z.gtb_gt in G; lia|].
    unfold test_and_return_false, bind, cow_call. simpl.
    destruct (cow_accepts W (cow_calls w) call); reflexivity.
  - intros L. unfold data. rewrite length_firstn, length_skipn.
    unfold first_byte, len in *. nia.
Qed.

(** ** [WriteExtent], continued *)

(** X6.  The replace-only path: when no XOR extent intersects the request
    and the map returns the request extent itself as the one replace
    extent, [WriteExtent] makes a single [AddRawBlocks] call with the
    request's start block and the whole buffer, byte for byte, reads nothing
    from the source, and returns the answer of the COW writer. *)
Theorem WriteExtent_replace_only (W : XORExtentWriter) (buf : bytes)
    (extent : Extent) (size : Z) (w : World) :
  GetIntersectingExtents (xor_map_ W) extent = [] ->
  GetNonIntersectingExtents (xor_map_ W) extent = [extent] ->
  Z.of_nat (length buf) = mul64 (num_blocks extent) (BlockSize W) ->
  let call := AddRawBlocks (start_block extent) buf (Z.of_nat (length buf)) in
  WriteExtent W buf extent size w =
  (cow_accepts W (cow_calls w) call,
   mkWorld (cow_calls w ++ [call]) (reads w) (errors w)).
Proof.
  intros HX HR HL call. unfold WriteExtent. rewrite HX, HR.
  simpl WriteExtent_loop. rewrite test_ret_true_l.
  rewrite WriteReplaceExtents_cons.
  assert (E : raw_call W buf extent extent = call).
  { unfold raw_call, call, sub64. rewrite Z.sub_diag.
    change (wrap 0) with 0. unfold mul64 at 1. rewrite Z.mul_0_l.
    change (wrap 0) with 0. rewrite advance_skipn by lia. simpl skipn.
    rewrite <- HL. rewrite read_at_firstn_to_nat, Nat2Z.id, firstn_all.
    reflexivity. }
  rewrite E.
  destruct (_ >? _) eqn:G; [apply Z.gtb_gt in G; lia|].
  unfold test_and_return_false, bind, cow_call. simpl.
  destruct (cow_accepts W (cow_calls w) call); reflexivity.
Qed.

(** ** [WriteXorCowOp], continued *)

(** X7.  [WriteXorCowOp] returns true exactly when the source read returns,
    the number of bytes read is the requested count seen as a signed size,
    and the COW writer accepts the [AddXorBlocks] call. *)
Theorem WriteXorCowOp_succeeds_iff (W : XORExtentWriter) (buf : bytes)
    (size : Z) (x : Extent) (off : Z) (w : World) :
  let count := mul64 (BlockSize W) (num_blocks x) in
  fst (WriteXorCowOp W buf size x off w) = true <->
  exists src,
    PReadAll W count off = Some src /\
    Z.of_nat (length src) = to_ssize count /\
    cow_accepts W (cow_calls w) (xor_call W buf x off src) = true.
Proof.
  cbv zeta. unfold WriteXorCowOp, xor_call.
  unfold test_and_return_false, bind, pread, cow_call, log_error, ret.
  destruct (PReadAll W _ off) as [data|].
  - destruct (Z.of_nat (length data) =? _) eqn:HL; cbn [negb cow_calls].
    + apply Z.eqb_eq in HL.
      destruct (cow_accepts W (cow_calls w) _) eqn:HA; simpl; split.
      * intros _. exists data. auto.
      * reflexivity.
      * discriminate.
      * intros (src & S & _ & A). injection S as <-. congruence.
    + apply Z.eqb_neq in HL. simpl. split; [discriminate|].
      intros (src & S & L & _). injection S as <-. contradiction.
  - simpl. split; [discriminate|]. intros (src & S & _). discriminate.
Qed.



Lemma lxor_byte (a b : Z) : is_byte a -> is_byte b -> is_byte (Z.lxor a b).
Proof.
  unfold is_byte. intros [A1 A2] [B1 B2].
  assert (N : 0 <= Z.lxor a b) by (apply Z.lxor_nonneg; tauto).
  split; [exact N|].
  destruct (Z.eq_dec (Z.lxor a b) 0) as [->|NZ]; [lia|].
  change 256 with (2 ^ 8). apply Z.log2_lt_pow2; [lia|].
  pose proof (Z.log2_lxor a b A1 B1) as L.
  assert (LA : Z.log2 a < 8).
  { destruct (Z.eq_dec a 0) as [->|]; [simpl; lia|].
    apply Z.log2_lt_pow2; [lia|]. simpl. lia. }
  assert (LB : Z.log2 b < 8).
  { destruct (Z.eq_dec b 0) as [->|]; [simpl; lia|].
    apply Z.log2_lt_pow2; [lia|]. simpl. lia. }
  lia.
Qed.

Lemma transform_bit_xor_bytes (xs ys : bytes) :
  Forall is_byte xs -> Forall is_byte ys ->
  Forall is_byte (transform_bit_xor xs ys).
Proof.
  intros HX. revert ys. induction HX as [|x xs Hx HX IH]; intros ys HY.
  - constructor.
  - destruct HY as [|y ys Hy HY]; simpl; constructor.
    + apply lxor_byte; assumption.
    + apply IH, HY.
Qed.

Lemma transform_bit_xor_self (xs : bytes) :
  transform_bit_xor xs xs = repeat 0 (length xs).
Proof.
  induction xs as [|x xs IH]; simpl; [reflexivity|].
  rewrite Z.lxor_nilpotent, IH. reflexivity.
Qed.

(** X10.  The delta of bytes is made of bytes: when the source returns
    bytes and the new content is made of bytes, the data of every
    [AddXorBlocks] call that [WriteXorCowOp] adds is made of bytes, and is
    not longer than the requested count. *)
Theorem WriteXorCowOp_delta_bytes (W : XORExtentWriter) (buf : bytes)
    (size : Z) (x : Extent) (off : Z) (w : World) :
  (forall src, PReadAll W (mul64 (BlockSize W) (num_blocks x)) off = Some src ->
               Forall is_byte src) ->
  Forall is_byte buf ->
  exists calls,
    cow_calls (snd (WriteXorCowOp W buf size x off w)) = cow_calls w ++ calls /\
    forall s data sz old_block offset,
      In (AddXorBlocks s data sz old_block offset) calls ->
      Forall is_byte data /\ Z.of_nat (length data) <= sz.
Proof.
  intros HS HB.
  destruct (WriteXorCowOp_outcome W buf size x off w) as [_ [[_ C]|[src S]]].
  - exists []. rewrite app_nil_r. split; [exact C|]. intros ? ? ? ? ? [].
  - destruct S as (R & L & _ & C & _). eexists. split; [exact C|].
    intros s data sz ob o [E|[]]. unfold xor_call in E.
    injection E as _ <- <- _ _. split.
    + apply transform_bit_xor_bytes; [apply HS, R | exact HB].
    + rewrite <- L. clear. revert buf.
      induction src as [|a src IH]; intros [|b buf]; simpl length; try lia.
      specialize (IH buf). simpl. lia.
Qed.

(** X11.  New content that is equal to the source bytes gives a delta of
    zeros: when [WriteXorCowOp] succeeds on a buffer that holds the bytes
    the source returns, the data of its [AddXorBlocks] call is the requested
    count of zero bytes. *)
Theorem WriteXorCowOp_unchanged_content (W : XORExtentWriter) (src : bytes)
    (size : Z) (x : Extent) (off : Z) (w w' : World) :
  PReadAll W (mul64 (BlockSize W) (num_blocks x)) off = Some src ->
  WriteXorCowOp W src size x off w = (true, w') ->
  let count := mul64 (BlockSize W) (num_blocks x) in
  cow_calls w' =
  cow_calls w ++
  [AddXorBlocks (start_block x) (repeat 0 (Z.to_nat count)) count
                (off / BlockSize W) (off mod BlockSize W)].
Proof.
  intros HR H count.
  destruct (WriteXorCowOp_outcome W src size x off w) as [_ [[F _]|[s S]]].
  - rewrite H in F. discriminate.
  - destruct S as (R & L & _ & C & _). rewrite H in C. simpl in C.
    rewrite HR in R. injection R as <-. rewrite C. unfold xor_call.
    rewrite transform_bit_xor_self. fold count in L |- *.
    rewrite <- L, Nat2Z.id. reflexivity.
Qed.

(** ** [WriteXorExtent], continued *)

Lemma source_range_whole (W : XORExtentWriter) (x : Extent)
    (m : CowMergeOperation) :
  source_range_fits W x m ->
  0 <= src_block_of x m /\
  num_blocks x < modulus /\
  whole_src_offset W x m = src_block_of x m * BlockSize W + src_offset m /\
  mul64 (BlockSize W) (num_blocks x) = num_blocks x * BlockSize W /\
  mul64 (BlockSize W) (sub64 (num_blocks x) 1) =
    (num_blocks x - 1) * BlockSize W /\
  sub64 (num_blocks x) 1 = num_blocks x - 1.
Proof.
  intros (HB & HP & HO & HN & HF).
  assert (HS : 0 <= src_block_of x m < modulus)
    by (unfold src_block_of, sub64; apply wrap_range).
  set (sb := src_block_of x m) in *. set (n := num_blocks x) in *.
  set (bs := BlockSize W) in *.
  assert (H1 : sb + n <= (sb + n) * bs) by nia.
  assert (H2 : sb * bs <= (sb + n) * bs) by nia.
  assert (H3 : n * bs <= (sb + n) * bs) by nia.
  assert (H4 : 0 <= (n - 1) * bs <= n * bs) by nia.
  assert (H5 : 0 <= sb * bs) by nia.
  split; [lia|]. split; [lia|].
  unfold whole_src_offset, add64, mul64, sub64. fold sb n bs.
  rewrite (wrap_small (sb * bs)) by lia.
  rewrite (wrap_small (sb * bs + src_offset m)) by lia.
  rewrite (wrap_small (n - 1)) by lia.
  rewrite (Z.mul_comm bs n), (Z.mul_comm bs (n - 1)).
  rewrite (wrap_small (n * bs)) by lia.
  rewrite (wrap_small ((n - 1) * bs)) by lia.
  repeat split; reflexivity.
Qed.

(** X12.  Without an overrun, for offsets that fit in 64 bits and a shift
    below the block size, the COW writer receives the source position of
    the merge operation as it is: the one [AddXorBlocks] call of
    [WriteXorExtent], when it makes one, has the re-based source block as
    block and [src_offset] as sub-block offset. *)
Theorem WriteXorExtent_in_bounds_position (W : XORExtentWriter) (buf : bytes)
    (size : Z) (x : Extent) (m : CowMergeOperation) (w : World) :
  source_range_fits W x m ->
  src_offset m < BlockSize W ->
  is_out_of_bound_read W x m = false ->
  exists calls,
    cow_calls (snd (WriteXorExtent W buf size x m w)) = cow_calls w ++ calls /\
    (calls = [] \/
     exists data,
       calls = [AddXorBlocks (start_block x) data
                  (num_blocks x * BlockSize W)
                  (src_block_of x m) (src_offset m)]).
Proof.
  intros F L H. rewrite WriteXorExtent_in_bounds by exact H.
  destruct (source_range_whole W x m F) as (S0 & _ & HW & HC & _).
  destruct F as (HB & _ & HO & _).
  destruct (WriteXorCowOp_calls W buf size x (whole_src_offset W x m) w)
    as (calls & C & D).
  exists calls. split; [exact C|].
  destruct D as [->|[src ->]]; [left; reflexivity|right].
  assert (Q : (src_block_of x m * BlockSize W + src_offset m) / BlockSize W =
              src_block_of x m)
    by (rewrite Z.div_add_l, Z.div_small; lia).
  assert (R : (src_block_of x m * BlockSize W + src_offset m) mod BlockSize W =
              src_offset m)
    by (rewrite Z.add_comm, Z.mod_add, Z.mod_small; lia).
  eexists. unfold xor_call. rewrite HC, HW, Q, R. reflexivity.
Qed.

(** X13.  Without an overrun and with a known partition size,
    [WriteXorExtent] makes one source read, of the bytes from
    [src_block * block_size + src_offset] on, [num_blocks * block_size] of
    them, and this read ends inside the partition. *)
Theorem WriteXorExtent_in_bounds_read (W : XORExtentWriter) (buf : bytes)
    (size : Z) (x : Extent) (m : CowMergeOperation) (w : World) :
  source_range_fits W x m ->
  partition_size_ W <> 0 ->
  is_out_of_bound_read W x m = false ->
  let offset := src_block_of x m * BlockSize W + src_offset m in
  let count := num_blocks x * BlockSize W in
  reads (snd (WriteXorExtent W buf size x m w)) =
    reads w ++ [mkRead offset count] /\
  offset + count <= partition_size_ W.
Proof.
  intros F P H offset count.
  rewrite WriteXorExtent_in_bounds by exact H.
  destruct (source_range_whole W x m F) as (_ & _ & HW & HC & _).
  destruct (source_range_exact W x m F) as [HE _].
  destruct (WriteXorCowOp_outcome W buf size x (whole_src_offset W x m) w)
    as [R _].
  rewrite HC, HW in R. rewrite HW. split; [exact R|].
  unfold is_out_of_bound_read in H. apply andb_false_iff in H.
  destruct H as [H|H].
  - rewrite Z.gtb_ltb in H. apply Z.ltb_ge in H.
    rewrite HE in H. unfold offset, count. lia.
  - apply negb_false_iff, Z.eqb_eq in H. contradiction.
Qed.

(** The reads of the out-of-bound branch: one for the blocks before the
    last one when there are any, then at most one for the last block. *)
Lemma write_split_reads (W : XORExtentWriter) (buf : bytes) (x : Extent)
    (m : CowMergeOperation) (w : World) :
  exists last,
    reads (snd (write_split W buf x m w)) =
    reads w ++
    (if sub64 (num_blocks x) 1 >? 0
     then [mkRead (whole_src_offset W x m)
                  (mul64 (BlockSize W) (sub64 (num_blocks x) 1))]
     else []) ++ last /\
    (last = [] \/
     last = [mkRead (last_block_src_offset W x m) (mul64 (BlockSize W) 1)]).
Proof.
  unfold write_split, test_and_return_false, bind.
  assert (P : reads (snd (write_non_oob W buf x m w)) =
              reads w ++
              (if sub64 (num_blocks x) 1 >? 0
               then [mkRead (whole_src_offset W x m)
                            (mul64 (BlockSize W) (sub64 (num_blocks x) 1))]
               else [])).
  { unfold write_non_oob. simpl num_blocks. destruct (_ >? 0).
    - apply WriteXorCowOp_outcome.
    - simpl. now rewrite app_nil_r. }
  destruct (write_non_oob W buf x m w) as [b w1]. simpl in P.
  destruct b.
  - destruct (WriteXorCowOp_outcome W
                (advance buf (mul64 (sub64 (num_blocks x) 1) (BlockSize W)))
                (BlockSize W) (last_block x) (last_block_src_offset W x m) w1)
      as [R _].
    fold (write_last_block W buf x m) in R. simpl num_blocks in R.
    eexists. split; [|right; reflexivity].
    destruct (write_last_block W buf x m w1) as [b2 w2]. simpl in R.
    rewrite P, <- app_assoc in R. destruct b2; exact R.
  - exists []. rewrite app_nil_r. auto.
Qed.

(** X14.  In the out-of-bound branch, for offsets that fit in 64 bits and
    a sub-extent of two blocks or more, the first read of [WriteXorExtent]
    is the read of the blocks before the last one, at
    [src_block * block_size + src_offset], and it ends inside the partition,
    [block_size - oob_bytes] bytes before its end; at most one more read
    follows. *)
Theorem WriteXorExtent_oob_prefix_read (W : XORExtentWriter) (buf : bytes)
    (size : Z) (x : Extent) (m : CowMergeOperation) (w : World) :
  source_range_fits W x m ->
  2 <= num_blocks x ->
  is_out_of_bound_read W x m = true ->
  oob_bytes W x m < BlockSize W ->
  let offset := src_block_of x m * BlockSize W + src_offset m in
  let count := (num_blocks x - 1) * BlockSize W in
  (exists rest,
     reads (snd (WriteXorExtent W buf size x m w)) =
       reads w ++ mkRead offset count :: rest /\
     (length rest <= 1)%nat) /\
  offset + count = partition_size_ W - (BlockSize W - oob_bytes W x m) /\
  offset + count < partition_size_ W.
Proof.
  intros F N H L offset count.
  destruct (source_range_whole W x m F) as (_ & _ & HW & _ & HC & HS).
  destruct (source_range_exact W x m F) as [HE _].
  split.
  - rewrite WriteXorExtent_oob_branch by assumption.
    set (w0 := snd ((if oob_bytes W x m >? src_offset m
                     then log_error (OverflowedSourceOffset (oob_bytes W x m)
                                                            (src_offset m))
                     else ret tt) w)).
    assert (R0 : reads w0 = reads w)
      by (subst w0; destruct (_ >? _); reflexivity).
    destruct (write_split_reads W buf x m w0) as (last & R & D).
    exists last. split.
    + assert (G : (sub64 (num_blocks x) 1 >? 0) = true)
        by (rewrite HS; apply Z.gtb_gt; lia).
      rewrite G, HC, HW, R0 in R. simpl in R.
      unfold bind. fold offset count in R. rewrite <- R. subst w0.
      destruct (_ >? _); reflexivity.
    + destruct D as [->| ->]; simpl; lia.
  - pose proof H as H'. apply is_out_of_bound_read_spec in H'.
    destruct H' as [HG HZ].
    destruct F as (HB & HP & HO & HN & HF).
    assert (HOOB : oob_bytes W x m =
                   read_end_offset W x m - partition_size_ W).
    { unfold oob_bytes. rewrite H. unfold sub64. apply wrap_small.
      rewrite HE. lia. }
    unfold offset, count. rewrite HE in HOOB. lia.
Qed.

(** X15.  A sub-extent of one block in the out-of-bound branch is written
    by the last-block write alone: [WriteXorExtent] logs when the overrun is
    larger than the shift, and then is one [WriteXorCowOp] of the sub-extent
    on the same buffer, at the start of its source block, without the
    shift. *)
Theorem WriteXorExtent_oob_single_block (W : XORExtentWriter) (buf : bytes)
    (size : Z) (x : Extent) (m : CowMergeOperation) (w : World) :
  num_blocks x = 1 ->
  0 <= start_block x < modulus ->
  is_out_of_bound_read W x m = true ->
  oob_bytes W x m < BlockSize W ->
  WriteXorExtent W buf size x m w =
  ((if oob_bytes W x m >? src_offset m
    then log_error (OverflowedSourceOffset (oob_bytes W x m) (src_offset m))
    else ret tt) ;;
   WriteXorCowOp W buf (BlockSize W) x
     (mul64 (src_block_of x m) (BlockSize W))) w.
Proof.
  intros N S H L. rewrite WriteXorExtent_oob_branch by assumption.
  unfold bind.
  destruct ((if oob_bytes W x m >? src_offset m
             then log_error (OverflowedSourceOffset (oob_bytes W x m)
                                                    (src_offset m))
             else ret tt) w) as [u w0].
  unfold write_split. unfold write_non_oob, non_oob_extent, ExtentForRange.
  simpl num_blocks. rewrite N. change (sub64 1 1) with 0.
  change (0 >? 0) with false. cbv iota. rewrite test_ret_true_l, test_ret_true.
  unfold write_last_block, last_block, last_block_src_offset, ExtentForRange.
  rewrite N. change (sub64 1 1) with 0. unfold mul64 at 1.
  rewrite Z.mul_0_l. change (wrap 0) with 0.
  rewrite advance_skipn by lia. simpl skipn.
  assert (A : forall z, 0 <= z < modulus -> sub64 (add64 z 1) 1 = z).
  { intros z Hz. unfold sub64, add64, wrap.
    rewrite Zminus_mod_idemp_l. replace (z + 1 - 1) with z by lia.
    apply Z.mod_small, Hz. }
  rewrite (A (start_block x) S).
  rewrite (A (src_block_of x m))
    by (unfold src_block_of, sub64; apply wrap_range).
  destruct x as [s n]. simpl in N. subst n. reflexivity.
Qed.

(** ** The calls of a request *)

Lemma WriteXorExtent_calls (W : XORExtentWriter) (buf : bytes) (size : Z)
    (x : Extent) (m : CowMergeOperation) (w : World) :
  exists calls,
    cow_calls (snd (WriteXorExtent W buf size x m w)) = cow_calls w ++ calls /\
    forallb is_xor_call calls = true.
Proof.
  destruct (is_out_of_bound_read W x m) eqn:H.
  - destruct (oob_bytes W x m >=? BlockSize W) eqn:G.
    + unfold WriteXorExtent. rewrite H, G. exists []. simpl.
      rewrite app_nil_r. auto.
    + rewrite WriteXorExtent_oob_branch
        by (try assumption; rewrite Z.geb_leb in G; apply Z.leb_gt in G; lia).
      unfold bind.
      set (w0 := (if oob_bytes W x m >? src_offset m
                  then log_error (OverflowedSourceOffset (oob_bytes W x m)
                                                         (src_offset m))
                  else ret tt) w).
      assert (C0 : cow_calls (snd w0) = cow_calls w)
        by (subst w0; destruct (_ >? _); reflexivity).
      destruct w0 as [u w0]. simpl in C0.
      destruct (write_split_calls W buf x m w0) as (pre & last & C & HP & HL).
      exists (pre ++ last). rewrite C, C0. split; [reflexivity|].
      rewrite forallb_app.
      destruct HP as [->|[? ->]]; destruct HL as [->|[? ->]]; reflexivity.
  - rewrite WriteXorExtent_in_bounds by exact H.
    destruct (WriteXorCowOp_calls W buf size x (whole_src_offset W x m) w)
      as (calls & C & D).
    exists calls. split; [exact C|]. destruct D as [->|[? ->]]; reflexivity.
Qed.

Lemma WriteExtent_step_calls (W : XORExtentWriter) (buf : bytes)
    (extent x : Extent) (w : World) :
  exists calls,
    cow_calls (snd (WriteExtent_step W buf extent x w)) = cow_calls w ++ calls /\
    forallb is_xor_call calls = true.
Proof.
  assert (N : exists calls, cow_calls w = cow_calls w ++ calls /\
                            forallb is_xor_call calls = true)
    by (exists []; rewrite app_nil_r; auto).
  unfold WriteExtent_step. destruct (Get (xor_map_ W) x) as [m|]; [|exact N].
  unfold test_and_return_false, bind, ret.
  destruct (has_src_extent m); [|exact N].
  destruct (has_dst_extent m); [|exact N].
  destruct (ExtentContains extent x); [|exact N].
  destruct (ExtentContains (dst_extent m) x); [|exact N].
  cbn [negb].
  match goal with |- context [WriteXorExtent W ?b ?s x m w] =>
    destruct (WriteXorExtent_calls W b s x m w) as (calls & C & F);
    destruct (WriteXorExtent W b s x m w) as [[|] w1] end;
    exists calls; auto.
Qed.

Lemma WriteExtent_loop_calls (W : XORExtentWriter) (buf : bytes)
    (extent : Extent) (xor_extents : list Extent) :
  forall w, exists calls,
    cow_calls (snd (WriteExtent_loop W buf extent xor_extents w)) =
      cow_calls w ++ calls /\
    forallb is_xor_call calls = true.
Proof.
  induction xor_extents as [|x rest IH]; intros w; simpl.
  - exists []. rewrite app_nil_r. auto.
  - unfold test_and_return_false, bind.
    destruct (WriteExtent_step_calls W buf extent x w) as (c1 & C1 & F1).
    destruct (WriteExtent_step W buf extent x w) as [[|] w1]; simpl in C1.
    + destruct (IH w1) as (c2 & C2 & F2). exists (c1 ++ c2).
      rewrite C2, C1, <- app_assoc, forallb_app, F1, F2. auto.
    + exists c1. auto.
Qed.

Lemma WriteReplaceExtents_raw_calls (W : XORExtentWriter)
    (replace_extents : list Extent) (extent : Extent) (buf : bytes)
    (size : Z) :
  forall w, exists calls,
    cow_calls (snd (WriteReplaceExtents W replace_extents extent buf size w)) =
      cow_calls w ++ calls /\
    forallb is_raw_call calls = true.
Proof.
  induction replace_extents as [|ext rest IH]; intros w.
  - exists []. simpl. rewrite app_nil_r. auto.
  - rewrite WriteReplaceExtents_cons. destruct (_ >? _).
    + exists []. simpl. rewrite app_nil_r. auto.
    + unfold test_and_return_false, bind, cow_call.
      destruct (cow_accepts W _ _).
      * match goal with |- context [WriteReplaceExtents _ _ _ _ _ ?v] =>
          destruct (IH v) as (calls & C & F) end.
        rewrite C. simpl. rewrite <- app_assoc. eexists.
        split; [reflexivity|]. simpl. exact F.
      * simpl. eexists. split; reflexivity.
Qed.

(** X16.  In one request every [AddXorBlocks] call comes before every
    [AddRawBlocks] call: the calls added are XOR writes followed by raw
    writes, and there is no raw write when the XOR extents were not all
    written. *)
Theorem WriteExtent_xor_before_raw (W : XORExtentWriter) (buf : bytes)
    (extent : Extent) (size : Z) (w : World) :
  exists xor_calls raw_calls,
    cow_calls (snd (WriteExtent W buf extent size w)) =
      cow_calls w ++ xor_calls ++ raw_calls /\
    forallb is_xor_call xor_calls = true /\
    forallb is_raw_call raw_calls = true /\
    (fst (WriteExtent_loop W buf extent
            (GetIntersectingExtents (xor_map_ W) extent) w) = false ->
     raw_calls = []).
Proof.
  unfold WriteExtent, test_and_return_false, bind.
  destruct (WriteExtent_loop_calls W buf extent
              (GetIntersectingExtents (xor_map_ W) extent) w) as (xs & C & F).
  destruct (WriteExtent_loop W buf extent _ w) as [[|] w1]; simpl in C.
  - destruct (WriteReplaceExtents_raw_calls W
                (GetNonIntersectingExtents (xor_map_ W) extent)
                extent buf size w1) as (rs & CR & FR).
    exists xs, rs. rewrite CR, C, <- app_assoc.
    repeat split; try assumption. discriminate.
  - exists xs, []. simpl. rewrite app_nil_r. auto.
Qed.

(** ** Failure of an XOR write *)

Lemma WriteExtent_loop_app (W : XORExtentWriter) (buf : bytes)
    (extent : Extent) (l1 l2 : list Extent) (w : World) :
  WriteExtent_loop W buf extent (l1 ++ l2) w =
  (TEST_AND_RETURN_FALSE WriteExtent_loop W buf extent l1 ;;;
   WriteExtent_loop W buf extent l2) w.
Proof.
  revert w. induction l1 as [|x l1 IH]; intros w.
  - reflexivity.
  - simpl. rewrite test_assoc. unfold test_and_return_false, bind.
    destruct (WriteExtent_step W buf extent x w) as [[|] w1]; [|reflexivity].
    rewrite IH. reflexivity.
Qed.

(** X17.  When [WriteXorExtent] fails for a valid XOR extent that the loop
    reaches, [WriteExtent] logs the failure and returns false: the calls
    and reads are those made up to the failure, and no replace extent is
    written. *)
Theorem WriteExtent_stops_at_failed_xor_write (W : XORExtentWriter)
    (buf : bytes) (extent : Extent) (size : Z) (pre post : list Extent)
    (x : Extent) (m : CowMergeOperation) (w w1 w2 : World) :
  GetIntersectingExtents (xor_map_ W) extent = pre ++ x :: post ->
  Get (xor_map_ W) x = Some m ->
  has_src_extent m = true ->
  has_dst_extent m = true ->
  ExtentContains extent x = true ->
  ExtentContains (dst_extent m) x = true ->
  WriteExtent_loop W buf extent pre w = (true, w1) ->
  WriteXorExtent W
    (advance buf (mul64 (sub64 (start_block x) (start_block extent))
                        (BlockSize W)))
    (mul64 (num_blocks x) (BlockSize W)) x m w1 = (false, w2) ->
  WriteExtent W buf extent size w =
  (false, mkWorld (cow_calls w2) (reads w2)
                  (errors w2 ++ [FailedToWriteXorExtent x])).
Proof.
  intros HG HM HS HD HC1 HC2 HP HX.
  unfold WriteExtent. rewrite HG.
  unfold test_and_return_false at 1. unfold bind at 1.
  rewrite WriteExtent_loop_app.
  unfold test_and_return_false at 1. unfold bind at 1. rewrite HP.
  simpl WriteExtent_loop.
  unfold test_and_return_false at 1. unfold bind at 1.
  unfold WriteExtent_step. rewrite HM.
  unfold test_and_return_false, bind, ret. rewrite HS, HD, HC1, HC2.
  cbn [negb]. rewrite HX. reflexivity.
Qed.

(** ** Repeating a request *)

Lemma extend_initial (w : World) : extend w initial = w.
Proof. destruct w. unfold extend. simpl. now rewrite !app_nil_r. Qed.

Lemma extend_extend (w d1 d2 : World) :
  extend (extend w d1) d2 = extend w (extend d1 d2).
Proof. unfold extend. simpl. now rewrite !app_assoc. Qed.

Lemma uniform_ret {A} (a : A) : uniform (ret a).
Proof.
  intros w1 w2. exists a, initial. now rewrite !extend_initial.
Qed.

Lemma uniform_bind {A B} (m : M A) (k : A -> M B) :
  uniform m -> (forall a, uniform (k a)) -> uniform (bind m k).
Proof.
  intros Hm Hk w1 w2. unfold bind.
  destruct (Hm w1 w2) as (a & d & -> & ->).
  destruct (Hk a (extend w1 d) (extend w2 d)) as (b & e & -> & ->).
  exists b, (extend d e). now rewrite !extend_extend.
Qed.

Lemma uniform_test (m k : M bool) :
  uniform m -> uniform k -> uniform (test_and_return_false m k).
Proof.
  intros Hm Hk. apply uniform_bind; [exact Hm|].
  intros [|]; [exact Hk | apply uniform_ret].
Qed.

Lemma uniform_log_error (e : LogError) : uniform (log_error e).
Proof. intros w1 w2. exists tt, (mkWorld [] [] [e]). unfold log_error, extend.
  simpl. now rewrite !app_nil_r. Qed.

Lemma uniform_pread (W : XORExtentWriter) (count offset : Z) :
  uniform (pread W count offset).
Proof.
  intros w1 w2. exists (PReadAll W count offset),
    (mkWorld [] [mkRead offset count] []).
  unfold pread, extend. simpl. now rewrite !app_nil_r.
Qed.

Lemma uniform_cow_call (W : XORExtentWriter) (c : CowCall) :
  history_independent W -> uniform (cow_call W c).
Proof.
  intros HI w1 w2. exists (cow_accepts W [] c), (mkWorld [c] [] []).
  unfold cow_call, extend. simpl. rewrite !app_nil_r.
  now rewrite (HI (cow_calls w1) []), (HI (cow_calls w2) []).
Qed.

Create HintDb uniformity.
#[local] Hint Resolve uniform_ret uniform_bind uniform_test uniform_log_error
  uniform_pread uniform_cow_call : uniformity.

Lemma uniform_WriteXorCowOp (W : XORExtentWriter) (buf : bytes) (size : Z)
    (x : Extent) (off : Z) :
  history_independent W -> uniform (WriteXorCowOp W buf size x off).
Proof.
  intros HI. unfold WriteXorCowOp.
  apply uniform_bind; [auto with uniformity|].
  intros [data|]; [|auto with uniformity].
  destruct (negb _); auto 6 with uniformity.
Qed.

Lemma uniform_WriteXorExtent (W : XORExtentWriter) (buf : bytes) (size : Z)
    (x : Extent) (m : CowMergeOperation) :
  history_independent W -> uniform (WriteXorExtent W buf size x m).
Proof.
  intros HI. unfold WriteXorExtent, write_split, write_non_oob,
    write_last_block.
  pose proof (uniform_WriteXorCowOp W) as HX.
  destruct (is_out_of_bound_read W x m).
  - destruct (_ >=? _); [auto with uniformity|].
    apply uniform_bind.
    + destruct (_ >? _); auto with uniformity.
    + intros _. apply uniform_test.
      * destruct (_ >? 0); auto with uniformity.
      * auto with uniformity.
  - auto with uniformity.
Qed.

Lemma uniform_WriteReplaceExtents (W : XORExtentWriter)
    (replace_extents : list Extent) (extent : Extent) (buf : bytes)
    (size : Z) :
  history_independent W ->
  uniform (WriteReplaceExtents W replace_extents extent buf size).
Proof.
  intros HI. induction replace_extents as [|ext rest IH].
  - apply uniform_ret.
  - intros w1 w2. rewrite !WriteReplaceExtents_cons.
    destruct (_ >? _).
    + apply uniform_bind; auto with uniformity.
    + apply uniform_test; auto with uniformity.
Qed.

Lemma uniform_WriteExtent_loop (W : XORExtentWriter) (buf : bytes)
    (extent : Extent) (xor_extents : list Extent) :
  history_independent W ->
  uniform (WriteExtent_loop W buf extent xor_extents).
Proof.
  intros HI. induction xor_extents as [|x rest IH]; simpl.
  - apply uniform_ret.
  - apply uniform_test; [|exact IH].
    unfold WriteExtent_step. destruct (Get (xor_map_ W) x) as [m|];
      [|auto with uniformity].
    apply uniform_test; [apply uniform_ret|].
    apply uniform_test; [apply uniform_ret|].
    destruct (negb (ExtentContains extent x)); [auto with uniformity|].
    destruct (negb (ExtentContains (dst_extent m) x)); [auto with uniformity|].
    apply uniform_bind; [apply uniform_WriteXorExtent, HI|].
    intros [|]; simpl; auto with uniformity.
Qed.


(** ** Round trip of a request *)

(** X19.  For an XOR extent inside the request buffer that is written
    without an overrun, the delta the COW writer receives, XOR-ed with the
    source bytes read, gives back the bytes of the request buffer for that
    extent: [num_blocks * block_size] bytes from byte
    [(x.start_block - extent.start_block) * block_size] on. *)
Theorem WriteExtent_step_roundtrip (W : XORExtentWriter) (buf : bytes)
    (extent x : Extent) (m : CowMergeOperation) (w w' : World) :
  Get (xor_map_ W) x = Some m ->
  is_out_of_bound_read W x m = false ->
  0 <= start_block extent <= start_block x ->
  start_block x < modulus ->
  0 <= BlockSize W ->
  0 <= num_blocks x ->
  (start_block x - start_block extent) * BlockSize W +
    num_blocks x * BlockSize W <= Z.of_nat (length buf) ->
  Z.of_nat (length buf) < modulus ->
  WriteExtent_step W buf extent x w = (true, w') ->
  let first_byte := (start_block x - start_block extent) * BlockSize W in
  let count := num_blocks x * BlockSize W in
  let offset := whole_src_offset W x m in
  exists src delta,
    PReadAll W count offset = Some src /\
    Z.of_nat (length src) = count /\
    cow_calls w' =
      cow_calls w ++
      [AddXorBlocks (start_block x) delta count
                    (offset / BlockSize W) (offset mod BlockSize W)] /\
    transform_bit_xor delta src =
      firstn (Z.to_nat count) (skipn (Z.to_nat first_byte) buf).
Proof.
  intros HM HO HS HX HB HN HL HF H first_byte count offset.
  unfold WriteExtent_step in H. rewrite HM in H.
  unfold test_and_return_false, bind, ret in H.
  destruct (has_src_extent m); [|discriminate].
  destruct (has_dst_extent m); [|discriminate].
  destruct (ExtentContains extent x); [|discriminate].
  destruct (ExtentContains (dst_extent m) x); [|discriminate].
  cbn [negb] in H.
  rewrite WriteXorExtent_in_bounds in H by exact HO.
  assert (E1 : mul64 (sub64 (start_block x) (start_block extent))
                     (BlockSize W) = first_byte).
  { unfold mul64, sub64, first_byte.
    rewrite (wrap_small (start_block x - start_block extent)) by lia.
    apply wrap_small. nia. }
  assert (E2 : mul64 (BlockSize W) (num_blocks x) = count).
  { unfold mul64, count. rewrite Z.mul_comm. apply wrap_small. nia. }
  rewrite E1 in H. rewrite advance_skipn in H by (unfold first_byte; nia).
  fold offset in H.
  set (slice := skipn (Z.to_nat first_byte) buf) in *.
  destruct (WriteXorCowOp_outcome W slice
              (mul64 (num_blocks x) (BlockSize W)) x offset w)
    as [_ [[F _]|[src S]]];
    destruct (WriteXorCowOp W slice _ x offset w) as [[|] w1];
    try discriminate.
  destruct S as (R & L & _ & C & _). simpl in C.
  injection H as <-. rewrite E2 in R, L.
  exists src, (transform_bit_xor src slice).
  split; [exact R|]. split; [exact L|]. split.
  - rewrite C. unfold xor_call. rewrite E2. reflexivity.
  - rewrite <- L, Nat2Z.id. apply transform_bit_xor_cancel.
    unfold slice. rewrite length_skipn. unfold first_byte, count in *. nia.
Qed.

(** * The further properties at concrete writers *)

(** The second of three replace extents ends at block 17, after the request
    of blocks 10 to 14: the first is written, the third is not. *)
Lemma WriteReplaceExtents_stops_at_overhang_witness :
  fst (WriteReplaceExtents Demo.replace_writer
         ([mkExtent 10 2] ++ mkExtent 14 3 :: [mkExtent 12 2])
         Demo.request Demo.request_data 20480 initial) = false /\
  cow_calls (snd (WriteReplaceExtents Demo.replace_writer
                    ([mkExtent 10 2] ++ mkExtent 14 3 :: [mkExtent 12 2])
                    Demo.request Demo.request_data 20480 initial)) =
    [AddRawBlocks 10 (repeat 7 (Z.to_nat 8192)) 8192].
Proof.
  destruct (WriteReplaceExtents_stops_at_overhang Demo.replace_writer
              [mkExtent 10 2] [mkExtent 12 2] (mkExtent 14 3) Demo.request
              Demo.request_data 20480 initial) as (F & C & _).
  - vm_compute. reflexivity.
  - split; [exact F|]. rewrite C. vm_compute. reflexivity.
Defined.

(** Two replace extents that cover the request: two raw writes. *)
Lemma WriteReplaceExtents_success_witness :
  snd (WriteReplaceExtents Demo.replace_writer [mkExtent 10 2; mkExtent 12 3]
         Demo.request Demo.request_data 20480 initial) =
  mkWorld [AddRawBlocks 10 (repeat 7 (Z.to_nat 8192)) 8192;
           AddRawBlocks 12 (repeat 7 (Z.to_nat 12288)) 12288] [] [].
Proof.
  destruct (WriteReplaceExtents_success Demo.replace_writer
              [mkExtent 10 2; mkExtent 12 3] Demo.request Demo.request_data
              20480 initial
              (snd (WriteReplaceExtents Demo.replace_writer
                      [mkExtent 10 2; mkExtent 12 3] Demo.request
                      Demo.request_data 20480 initial))) as [E _].
  - vm_compute. reflexivity.
  - rewrite E. vm_compute. reflexivity.
Defined.

(** The blocks 12 and 13 of a request from block 10: the bytes 8192 to
    16383 of the buffer. *)
Lemma WriteReplaceExtents_forwards_slice_witness :
  WriteReplaceExtents Demo.replace_writer [mkExtent 12 2] Demo.request
    Demo.request_data 20480 initial =
  (true,
   mkWorld [AddRawBlocks 12
              (firstn (Z.to_nat 8192) (skipn (Z.to_nat 8192) Demo.request_data))
              8192] [] []).
Proof.
  assert (H1 : 0 <= start_block Demo.request <= start_block (mkExtent 12 2))
    by (vm_compute; split; discriminate).
  assert (H2 : 0 <= num_blocks (mkExtent 12 2)) by (vm_compute; discriminate).
  assert (H3 : start_block (mkExtent 12 2) + num_blocks (mkExtent 12 2) <=
               start_block Demo.request + num_blocks Demo.request)
    by (vm_compute; discriminate).
  assert (H4 : start_block Demo.request + num_blocks Demo.request < modulus)
    by (vm_compute; reflexivity).
  assert (H5 : 0 <= BlockSize Demo.replace_writer)
    by (vm_compute; discriminate).
  assert (H6 : num_blocks Demo.request * BlockSize Demo.replace_writer <
               modulus) by (vm_compute; reflexivity).
  exact (proj1 (WriteReplaceExtents_forwards_slice Demo.replace_writer
                  (mkExtent 12 2) Demo.request Demo.request_data 20480 initial
                  H1 H2 H3 H4 H5 H6)).
Defined.

(** A request of five blocks without XOR operations. *)
Lemma WriteExtent_replace_only_witness :
  WriteExtent Demo.replace_writer Demo.request_data Demo.request 20480 initial =
  (true,
   mkWorld [AddRawBlocks 10 Demo.request_data 20480] [] []).
Proof.
  apply (WriteExtent_replace_only Demo.replace_writer Demo.request_data
           Demo.request 20480 initial); vm_compute; reflexivity.
Defined.



(** A device and a buffer made of bytes. *)
Lemma WriteXorCowOp_delta_bytes_witness :
  exists calls,
    cow_calls (snd (WriteXorCowOp Demo.unbounded_writer Demo.new_data 8192
                      Demo.xor_ext 0 initial)) = calls /\
    forall s data sz old_block offset,
      In (AddXorBlocks s data sz old_block offset) calls ->
      Forall is_byte data /\ Z.of_nat (length data) <= sz.
Proof.
  assert (D : Forall is_byte Demo.device).
  { apply Forall_forall. intros b Hb. apply repeat_spec in Hb. subst b.
    split; [discriminate | reflexivity]. }
  assert (N : Forall is_byte Demo.new_data).
  { apply Forall_forall. intros b Hb. unfold Demo.new_data in Hb.
    apply in_app_or in Hb.
    destruct Hb as [Hb|Hb]; apply repeat_spec in Hb; subst b;
      (split; [discriminate | reflexivity]). }
  assert (S : forall src,
             PReadAll Demo.unbounded_writer
               (mul64 (BlockSize Demo.unbounded_writer)
                      (num_blocks Demo.xor_ext)) 0 = Some src ->
             Forall is_byte src).
  { intros src H.
    assert (E : PReadAll Demo.unbounded_writer
                  (mul64 (BlockSize Demo.unbounded_writer)
                         (num_blocks Demo.xor_ext)) 0 = Some Demo.device)
      by (vm_compute; reflexivity).
    rewrite E in H. injection H as <-. exact D. }
  destruct (WriteXorCowOp_delta_bytes Demo.unbounded_writer Demo.new_data 8192
              Demo.xor_ext 0 initial S N) as (calls & C & P).
  exists calls. split; [exact C | exact P].
Defined.

(** New content equal to the two blocks of the device. *)
Lemma WriteXorCowOp_unchanged_content_witness :
  cow_calls (snd (WriteXorCowOp Demo.unbounded_writer Demo.device 8192
                    Demo.xor_ext 0 initial)) =
  [AddXorBlocks 100 (repeat 0 (Z.to_nat 8192)) 8192 0 0].
Proof.
  apply (WriteXorCowOp_unchanged_content Demo.unbounded_writer Demo.device
           8192 Demo.xor_ext 0 initial); vm_compute; reflexivity.
Defined.

(** One block under a shift of 200 bytes, partition size unknown. *)
Lemma WriteXorExtent_in_bounds_position_witness :
  cow_calls (snd (WriteXorExtent Demo.unbounded_writer Demo.new_data 4096
                    Demo.one_block Demo.shifted_op initial)) =
    [AddXorBlocks 100 (repeat 102 (Z.to_nat 4096)) 4096 0 200] /\
  exists calls,
    cow_calls (snd (WriteXorExtent Demo.unbounded_writer Demo.new_data 4096
                      Demo.one_block Demo.shifted_op initial)) = calls /\
    (calls = [] \/
     exists data, calls = [AddXorBlocks 100 data 4096 0 200]).
Proof.
  assert (F : source_range_fits Demo.unbounded_writer Demo.one_block
                Demo.shifted_op)
    by (repeat split; vm_compute; try reflexivity; discriminate).
  assert (L : src_offset Demo.shifted_op < BlockSize Demo.unbounded_writer)
    by reflexivity.
  assert (H : is_out_of_bound_read Demo.unbounded_writer Demo.one_block
                Demo.shifted_op = false) by (vm_compute; reflexivity).
  split; [vm_compute; reflexivity|].
  exact (WriteXorExtent_in_bounds_position Demo.unbounded_writer Demo.new_data
           4096 Demo.one_block Demo.shifted_op initial F L H).
Defined.

(** One block under a shift of 200 bytes, in a partition of 8292 bytes. *)
Lemma WriteXorExtent_in_bounds_read_witness :
  reads (snd (WriteXorExtent Demo.shifted_writer Demo.new_data 4096
                Demo.one_block Demo.shifted_op initial)) =
    [mkRead 200 4096] /\
  200 + 4096 <= partition_size_ Demo.shifted_writer.
Proof.
  assert (F : source_range_fits Demo.shifted_writer Demo.one_block
                Demo.shifted_op)
    by (repeat split; vm_compute; try reflexivity; discriminate).
  assert (P : partition_size_ Demo.shifted_writer <> 0)
    by (vm_compute; discriminate).
  assert (H : is_out_of_bound_read Demo.shifted_writer Demo.one_block
                Demo.shifted_op = false) by (vm_compute; reflexivity).
  exact (WriteXorExtent_in_bounds_read Demo.shifted_writer Demo.new_data 4096
           Demo.one_block Demo.shifted_op initial F P H).
Defined.

(** Two blocks under a shift of 200 bytes, with an overrun of 100 bytes. *)
Lemma WriteXorExtent_oob_prefix_read_witness :
  (exists rest,
     reads (snd (WriteXorExtent Demo.shifted_writer Demo.new_data 8192
                   Demo.xor_ext Demo.shifted_op initial)) =
       mkRead 200 4096 :: rest /\
     (length rest <= 1)%nat) /\
  200 + 4096 < partition_size_ Demo.shifted_writer.
Proof.
  assert (F : source_range_fits Demo.shifted_writer Demo.xor_ext
                Demo.shifted_op)
    by (repeat split; vm_compute; try reflexivity; discriminate).
  assert (N : 2 <= num_blocks Demo.xor_ext) by (vm_compute; discriminate).
  assert (H : is_out_of_bound_read Demo.shifted_writer Demo.xor_ext
                Demo.shifted_op = true) by (vm_compute; reflexivity).
  assert (L : oob_bytes Demo.shifted_writer Demo.xor_ext Demo.shifted_op <
              BlockSize Demo.shifted_writer) by (vm_compute; reflexivity).
  destruct (WriteXorExtent_oob_prefix_read Demo.shifted_writer Demo.new_data
              8192 Demo.xor_ext Demo.shifted_op initial F N H L)
    as (R & _ & B).
  split; [exact R | exact B].
Defined.

(** One block that overruns a partition of 4000 bytes by 96 bytes. *)
Lemma WriteXorExtent_oob_single_block_witness :
  WriteXorExtent Demo.tiny_writer Demo.new_data 4096 Demo.one_block
    Demo.merge_op initial =
  (true,
   mkWorld [AddXorBlocks 100 (repeat 102 (Z.to_nat 4096)) 4096 0 0]
           [mkRead 0 4096] [OverflowedSourceOffset 96 0]).
Proof.
  assert (N : num_blocks Demo.one_block = 1) by reflexivity.
  assert (S : 0 <= start_block Demo.one_block < modulus)
    by (vm_compute; split; [discriminate | reflexivity]).
  assert (H : is_out_of_bound_read Demo.tiny_writer Demo.one_block
                Demo.merge_op = true) by (vm_compute; reflexivity).
  assert (L : oob_bytes Demo.tiny_writer Demo.one_block Demo.merge_op <
              BlockSize Demo.tiny_writer) by (vm_compute; reflexivity).
  rewrite (WriteXorExtent_oob_single_block Demo.tiny_writer Demo.new_data
             4096 Demo.one_block Demo.merge_op initial N S H L).
  vm_compute. reflexivity.
Defined.

(** The device ends inside the last block: the first block is written, the
    read of the last block is short, and the request fails. *)
Lemma WriteExtent_stops_at_failed_xor_write_witness :
  WriteExtent Demo.short_writer Demo.new_data Demo.install_extent 8192
    initial =
  (false,
   mkWorld [AddXorBlocks 100 (repeat 102 (Z.to_nat 4096)) 4096 0 0]
           [mkRead 0 4096; mkRead 4096 4096]
           [OverflowedSourceOffset 100 0; ShortRead 3996 4096 1 0;
            FailedToWriteXorExtent Demo.xor_ext]).
Proof.
  rewrite (WriteExtent_stops_at_failed_xor_write Demo.short_writer
             Demo.new_data Demo.install_extent 8192 [] [] Demo.xor_ext
             Demo.merge_op initial initial
             (snd (WriteXorExtent Demo.short_writer Demo.new_data 8192
                     Demo.xor_ext Demo.merge_op initial)));
    vm_compute; reflexivity.
Defined.


(** Two blocks written against the two blocks of the device. *)
Lemma WriteExtent_step_roundtrip_witness :
  exists src delta,
    PReadAll Demo.unbounded_writer 8192 0 = Some src /\
    cow_calls (snd (WriteExtent_step Demo.unbounded_writer Demo.new_data
                      Demo.install_extent Demo.xor_ext initial)) =
      [AddXorBlocks 100 delta 8192 0 0] /\
    transform_bit_xor delta src = Demo.new_data.
Proof.
  assert (HM : Get (xor_map_ Demo.unbounded_writer) Demo.xor_ext =
               Some Demo.merge_op) by reflexivity.
  assert (HO : is_out_of_bound_read Demo.unbounded_writer Demo.xor_ext
                 Demo.merge_op = false) by (vm_compute; reflexivity).
  assert (HS : 0 <= start_block Demo.install_extent <=
               start_block Demo.xor_ext) by (vm_compute; split; discriminate).
  assert (HX : start_block Demo.xor_ext < modulus) by reflexivity.
  assert (HB : 0 <= BlockSize Demo.unbounded_writer)
    by (vm_compute; discriminate).
  assert (HN : 0 <= num_blocks Demo.xor_ext) by (vm_compute; discriminate).
  assert (HL : (start_block Demo.xor_ext - start_block Demo.install_extent) *
               BlockSize Demo.unbounded_writer +
               num_blocks Demo.xor_ext * BlockSize Demo.unbounded_writer <=
               Z.of_nat (length Demo.new_data)) by (vm_compute; discriminate).
  assert (HF : Z.of_nat (length Demo.new_data) < modulus)
    by (vm_compute; reflexivity).
  assert (R : WriteExtent_step Demo.unbounded_writer Demo.new_data
                Demo.install_extent Demo.xor_ext initial =
              (true, snd (WriteExtent_step Demo.unbounded_writer Demo.new_data
                            Demo.install_extent Demo.xor_ext initial)))
    by (vm_compute; reflexivity).
  destruct (WriteExtent_step_roundtrip Demo.unbounded_writer Demo.new_data
              Demo.install_extent Demo.xor_ext Demo.merge_op initial _
              HM HO HS HX HB HN HL HF R) as (src & delta & P & _ & C & T).
  exists src, delta. split; [exact P|]. split; [exact C|].
  rewrite T. vm_compute. reflexivity.
Defined.
